(** * Retrieval-ranking core of the AI-powered knowledge agent

    A shallow embedding of the ranking pipeline of the repository
    (app/utils/context_assembler.py, app/utils/semantic_chunker.py,
    app/utils/query_optimizer.py, app/utils/structured_pdf_parser.py,
    app/services/search_pipeline.py) and the proofs of its specification.

    Python strings are modelled as [string], one [ascii] per code point; only
    code points below 256 are representable and are read as Latin-1.
    Python floats are modelled either as primitive binary64 floats (where
    the float behaviour matters, e.g. NaN) or as exact rationals [Q] (scores
    that are only added, averaged and compared). *)

From Stdlib Require Import ZArith QArith Qround Qabs String Ascii List Bool Lia Lqa.
From Stdlib Require Import Permutation Sorting.Sorted Floats.
Import ListNotations.

Open Scope string_scope.
Open Scope nat_scope.

(* ------------------------------------------------------------------ *)
(** ** Python string primitives *)

Module Py.

(** [str.isspace] on the code points 0..255. *)
Definition is_space (c : ascii) : bool := (
  let n := nat_of_ascii c in
  ((9 <=? n) && (n <=? 13)) || ((28 <=? n) && (n <=? 32))
  || (n =? 133) || (n =? 160))%nat.

(** [str.lower] on the code points 0..255. *)
Definition lower_char (c : ascii) : ascii :=
  let n := nat_of_ascii c in
  if (((65 <=? n) && (n <=? 90)) || ((192 <=? n) && (n <=? 222) && negb (n =? 215)))%nat
  then ascii_of_nat (n + 32) else c.

Fixpoint lower (s : string) : string :=
  match s with
  | EmptyString => EmptyString
  | String c s' => String (lower_char c) (lower s')
  end.

Fixpoint lstrip (s : string) : string :=
  match s with
  | EmptyString => EmptyString
  | String c s' => if is_space c then lstrip s' else s
  end.

Definition rstrip (s : string) : string :=
  string_of_list_ascii (rev (list_ascii_of_string (lstrip
    (string_of_list_ascii (rev (list_ascii_of_string s)))))).

(** [str.strip()] *)
Definition strip (s : string) : string := rstrip (lstrip s).

(** Truthiness of a string: non-empty. *)
Definition truthy (s : string) : bool :=
  match s with EmptyString => false | _ => true end.

(** [str.split()] with no argument: split on whitespace runs, drop empties. *)
Fixpoint split_ws_go (cur : list ascii) (s : string) : list string :=
  match s with
  | EmptyString =>
      match cur with [] => [] | _ => [string_of_list_ascii (rev cur)] end
  | String c s' =>
      if is_space c then
        match cur with
        | [] => split_ws_go [] s'
        | _ => string_of_list_ascii (rev cur) :: split_ws_go [] s'
        end
      else split_ws_go (c :: cur) s'
  end.

Definition split_ws (s : string) : list string := split_ws_go [] s.

(** [sep.join(l)] *)
Fixpoint join (sep : string) (l : list string) : string :=
  match l with
  | [] => ""
  | [x] => x
  | x :: l' => x ++ sep ++ join sep l'
  end.

Definition nl : string := String (ascii_of_nat 10) EmptyString.

(** [l[:k]] for an int [k]. *)
Definition take {A} (k : Z) (l : list A) : list A :=
  if (0 <=? k)%Z then firstn (Z.to_nat k) l
  else firstn (length l - Z.to_nat (- k)) l.

(** A stable insertion sort: [before y x] says that [y], already placed,
    stays in front of the later element [x].  With [before] derived from a
    total preorder on keys this is the result of Python's stable
    [sorted]/[list.sort]. *)
Section Sort.
Context {A : Type} (before : A -> A -> bool).

Fixpoint insert (x : A) (l : list A) : list A :=
  match l with
  | [] => [x]
  | y :: l' => if before y x then y :: insert x l' else x :: l
  end.

Definition sort (l : list A) : list A :=
  fold_left (fun acc x => insert x acc) l [].
End Sort.

(** Decimal rendering of an integer, as [str(int)]. *)
Fixpoint digits_go (fuel : nat) (n : N) (acc : string) : string :=
  match fuel with
  | O => acc
  | S f =>
      let d := N.modulo n 10 in
      let acc' := String (ascii_of_N (48 + d)) acc in
      if (n <? 10)%N then acc' else digits_go f (N.div n 10) acc'
  end.

Definition show_N (n : N) : string := digits_go (S (N.size_nat n)) n "".

Definition show_Z (z : Z) : string :=
  if (z <? 0)%Z then "-" ++ show_N (Z.to_N (- z)) else show_N (Z.to_N z).

End Py.

(** Outcome of a Python call: a value, or the exception it raises. *)
Inductive result (A : Type) : Type :=
| Ok : A -> result A
| Raise : string -> result A.
Arguments Ok {A} _.
Arguments Raise {A} _.

(* ------------------------------------------------------------------ *)
(** ** Hybrid merge (app/services/search_pipeline.py) *)

Module Merge.

(** A search hit as the vector and keyword providers return it:
    [{id, score, payload}]. *)
Record candidate := mkCandidate {
  cand_id : string;
  cand_score : Q;
  cand_payload : string
}.

(** [d[c.id] = c] on a dict kept in insertion order: an existing key keeps
    its position and takes the new value, a new key goes last. *)
Fixpoint dict_set (c : candidate) (d : list candidate) : list candidate :=
  match d with
  | [] => [c]
  | y :: d' => if String.eqb (cand_id y) (cand_id c) then c :: d'
               else y :: dict_set c d'
  end.

(** [sorted(..., key=score, reverse=True)]: an earlier entry stays in front
    of a later one unless the later one has a strictly higher score. *)
Definition score_before (y x : candidate) : bool :=
  Qle_bool (cand_score x) (cand_score y).

(** Modelled from the spec: [merge_results] (imported by search_pipeline.py
    from app.services.qdrant_service, where it is not defined), after
    section 4.6: "build a mapping keyed by chunk identity seeded from the
    vector-search list; overlay keyword-search entries, overwriting on
    identity collision; sort the union by each entry's own relevance score
    descending; truncate to [top_k]". *)
Definition merge_results (semantic_results keyword_results : list candidate)
    (top_k : nat) : list candidate :=
  let seeded := fold_left (fun d c => dict_set c d) semantic_results [] in
  let merged := fold_left (fun d c => dict_set c d) keyword_results seeded in
  firstn top_k (Py.sort score_before merged).

(** [search_documents] with the two provider calls already made: in
    "semantic" mode it returns the vector hits, in "hybrid" mode the merge,
    and it raises [ValueError] on any other [SEARCH_MODE]. *)
Definition search_documents (mode : string)
    (semantic_results keyword_results : list candidate) (top_k : nat)
    : result (list candidate) :=
  if String.eqb mode "semantic" then Ok semantic_results
  else if String.eqb mode "hybrid" then
    Ok (merge_results semantic_results keyword_results top_k)
  else Raise ("ValueError: Invalid SEARCH_MODE: " ++ mode ++
              ". Use 'semantic' or 'hybrid'.").

End Merge.

(* ------------------------------------------------------------------ *)
(** ** [difflib.SequenceMatcher(None, a, b).ratio()] *)

(** The text-similarity measure that [ContextAssembler.is_similar] calls.
    With [isjunk=None] the junk set is empty; with the default
    [autojunk=True] a character of [b] is "popular", and never starts a
    match, when [len(b) >= 200] and it occurs more than [len(b)//100 + 1]
    times. *)
Module SeqMatch.

Definition char_at (l : list ascii) (i : nat) : ascii := nth i l " "%char.

Fixpoint positions (c : ascii) (b : list ascii) (j : nat) : list nat :=
  match b with
  | [] => []
  | x :: b' => if Ascii.eqb x c then j :: positions c b' (S j)
               else positions c b' (S j)
  end.

(** [self.b2j.get(c, [])] after [__chain_b]. *)
Definition b2j_get (b : list ascii) (c : ascii) : list nat :=
  let idxs := positions c b 0 in
  let n := length b in
  if (200 <=? n) && (n / 100 + 1 <? length idxs) then [] else idxs.

Fixpoint j2len_get (m : list (nat * nat)) (j : nat) : nat :=
  match m with
  | [] => 0
  | (j', k) :: m' => if j' =? j then k else j2len_get m' j
  end.

(** The inner loop of [find_longest_match] over [b2j[a[i]]]. *)
Fixpoint inner (blo bhi i : nat) (j2len : list (nat * nat)) (js : list nat)
    (newj2len : list (nat * nat)) (best : nat * nat * nat)
    : list (nat * nat) * (nat * nat * nat) :=
  match js with
  | [] => (newj2len, best)
  | j :: js' =>
      if j <? blo then inner blo bhi i j2len js' newj2len best
      else if bhi <=? j then (newj2len, best)
      else
        let k := match j with O => 0 | S j' => j2len_get j2len j' end + 1 in
        let '(_, _, bestsize) := best in
        let best' := if bestsize <? k then (i + 1 - k, j + 1 - k, k) else best in
        inner blo bhi i j2len js' ((j, k) :: newj2len) best'
  end.

(** The outer loop [for i in range(alo, ahi)]. *)
Fixpoint outer (a b : list ascii) (blo bhi i n : nat)
    (j2len : list (nat * nat)) (best : nat * nat * nat) : nat * nat * nat :=
  match n with
  | O => best
  | S n' =>
      let '(j2len', best') := inner blo bhi i j2len (b2j_get b (char_at a i)) [] best in
      outer a b blo bhi (S i) n' j2len' best'
  end.

(** The two [while] loops that extend the best match by non-junk equal
    characters (popular characters are not junk). *)
Fixpoint extend_left (fuel : nat) (a b : list ascii) (alo blo : nat)
    (m : nat * nat * nat) : nat * nat * nat :=
  match fuel with
  | O => m
  | S f =>
      let '(i, j, k) := m in
      if (alo <? i) && (blo <? j) && Ascii.eqb (char_at a (i - 1)) (char_at b (j - 1))
      then extend_left f a b alo blo (i - 1, j - 1, S k) else m
  end.

Fixpoint extend_right (fuel : nat) (a b : list ascii) (ahi bhi : nat)
    (m : nat * nat * nat) : nat * nat * nat :=
  match fuel with
  | O => m
  | S f =>
      let '(i, j, k) := m in
      if (i + k <? ahi) && (j + k <? bhi) && Ascii.eqb (char_at a (i + k)) (char_at b (j + k))
      then extend_right f a b ahi bhi (i, j, S k) else m
  end.

Definition find_longest_match (a b : list ascii) (alo ahi blo bhi : nat)
    : nat * nat * nat :=
  let m := outer a b blo bhi alo (ahi - alo) [] (alo, blo, 0) in
  extend_right (length a) a b ahi bhi (extend_left (length a) a b alo blo m).

(** Sum of the sizes of [get_matching_blocks()]: the queue of sub-ranges
    is processed in some order, the sum does not depend on it.  Each
    recursive range of [a] is strictly smaller, so [len(a) + 1] levels of
    fuel suffice. *)
Fixpoint matched (fuel : nat) (a b : list ascii) (alo ahi blo bhi : nat) : nat :=
  match fuel with
  | O => 0
  | S f =>
      let '(i, j, k) := find_longest_match a b alo ahi blo bhi in
      if k =? 0 then 0
      else k + (if (alo <? i) && (blo <? j) then matched f a b alo i blo j else 0)
             + (if (i + k <? ahi) && (j + k <? bhi)
                then matched f a b (i + k) ahi (j + k) bhi else 0)
  end.

(** [ratio()]: [2.0 * M / T], and [1.0] when both sequences are empty. *)
Definition ratio (sa sb : string) : Q :=
  let a := list_ascii_of_string sa in
  let b := list_ascii_of_string sb in
  let t := length a + length b in
  match t with
  | O => 1
  | S _ => Z.of_nat (2 * matched (S (length a)) a b 0 (length a) 0 (length b))
           # Pos.of_nat t
  end.

End SeqMatch.

(* ------------------------------------------------------------------ *)
(** ** Context assembler (app/utils/context_assembler.py) *)

Module Assembler.

Definition qlt (x y : Q) : bool := negb (Qle_bool y x).

(** The payload keys the assembler reads; [None] is a missing key or a
    [None] value. *)
Record payload := mkPayload {
  p_section_path : option string;
  p_section : option string;
  p_sectionPath : option string;
  p_source : option string;
  p_doc_title : option string;
  p_document : option string;
  p_content : option string;
  p_text : option string;
  p_body : option string;
  p_chunk_index : option Z
}.

Definition empty_payload : payload :=
  mkPayload None None None None None None None None None None.

(** A search hit in dict form: [{"id", "point_id", "payload", "score"}]. *)
Record hit := mkHit {
  hit_id : option string;
  hit_point_id : option string;
  hit_payload : option payload;
  hit_score : Q
}.

(** [d.get(k1) or d.get(k2) or ... or ""] *)
Fixpoint or_get (l : list (option string)) : string :=
  match l with
  | [] => ""
  | Some s :: l' => if Py.truthy s then s else or_get l'
  | None :: l' => or_get l'
  end.

(** A chunk index, or [float("inf")] when unknown. *)
Inductive ext := Fin (z : Z) | Inf.

(** An item of [group_by_section]. *)
Record item := mkItem {
  it_id : option string;
  it_chunk_index : ext;
  it_text : string;
  it_score : Q;
  it_source : string
}.

(** [payload = item["payload"] or {}] after [_to_simple]. *)
Definition payload_of (h : hit) : payload :=
  match hit_payload h with Some p => p | None => empty_payload end.

Definition hit_content (h : hit) : string :=
  let p := payload_of h in or_get [p_content p; p_text p; p_body p].

Definition hit_has_content (h : hit) : bool := Py.truthy (hit_content h).

(** [grouped[key].append(it)] on a [defaultdict(list)]. *)
Fixpoint group_add (key : string) (it : item)
    (g : list (string * list item)) : list (string * list item) :=
  match g with
  | [] => [(key, [it])]
  | (k, items) :: g' => if String.eqb k key then (k, (items ++ [it])%list) :: g'
                        else (k, items) :: group_add key it g'
  end.

(** One iteration of the loop of [group_by_section]. *)
Definition group_step (g : list (string * list item)) (h : hit)
    : list (string * list item) :=
  let p := payload_of h in
  let section := or_get [p_section_path p; p_section p; p_sectionPath p] in
  let source := or_get [p_source p; p_doc_title p; p_document p] in
  let content := or_get [p_content p; p_text p; p_body p] in
  let chunk_idx := match p_chunk_index p with Some z => Fin z | None => Inf end in
  if negb (Py.truthy content) then g
  else
    let key := if Py.truthy (Py.strip section) then Py.strip section
               else "__no_section__::" ++ (if Py.truthy source then source else "unknown") in
    let id := match hit_id h with
              | Some i => if Py.truthy i then Some i else hit_point_id h
              | None => hit_point_id h end in
    group_add key (mkItem id chunk_idx (Py.strip content) (hit_score h) source) g.

Definition group_by_section (search_results : list hit) : list (string * list item) :=
  fold_left group_step search_results [].

(** A stitched block. *)
Record block := mkBlock {
  blk_section : string;
  blk_text : string;
  blk_source : string;
  blk_chunk_indices : list ext;
  blk_avg_score : Q
}.

Definition ext_le (x y : ext) : bool :=
  match x, y with
  | Fin a, Fin b => Z.leb a b
  | _, Inf => true
  | Inf, Fin _ => false
  end.

(** [sorted(items, key=chunk_index)] *)
Definition index_before (y x : item) : bool :=
  ext_le (it_chunk_index y) (it_chunk_index x).

(** [(idx - last_idx) <= self.neighbor_gap] with [inf - inf = nan]. *)
Definition within_gap (gap : Z) (idx last : ext) : bool :=
  match idx, last with
  | Fin i, Fin l => Z.leb (i - l) gap
  | Inf, Fin _ => false
  | Fin _, Inf => true
  | Inf, Inf => false
  end.

Definition first_truthy (l : list string) : string :=
  match filter Py.truthy l with [] => "" | s :: _ => s end.

(** [flush_current()] *)
Definition flush (section : string) (group : list item) : list block :=
  match group with
  | [] => []
  | _ =>
      let scores := map it_score group in
      [mkBlock section (Py.join Py.nl (map it_text group))
               (first_truthy (map it_source group))
               (map it_chunk_index group)
               (fold_left Qplus scores 0%Q / inject_Z (Z.of_nat (length scores)))%Q]
  end.

(** The loop of [stitch_neighbors] over one section's sorted items. *)
Fixpoint stitch_go (gap : Z) (section : string) (current : list item)
    (last_idx : option ext) (items : list item) : list block :=
  match items with
  | [] => flush section current
  | it :: rest =>
      let idx := it_chunk_index it in
      match last_idx with
      | None => stitch_go gap section [it] (Some idx) rest
      | Some l =>
          if within_gap gap idx l
          then stitch_go gap section (current ++ [it])%list (Some idx) rest
          else (flush section current ++ stitch_go gap section [it] (Some idx) rest)%list
      end
  end.

Definition stitch_neighbors (gap : Z) (grouped : list (string * list item))
    : list block :=
  flat_map (fun '(section, items) =>
              stitch_go gap section [] None (Py.sort index_before items)) grouped.

(** [is_similar] *)
Definition is_similar (threshold : Q) (a b : string) : bool :=
  if negb (Py.truthy a) || negb (Py.truthy b) then false
  else qlt threshold (SeqMatch.ratio a b).

Fixpoint dedup_go (threshold : Q) (unique blocks : list block) : list block :=
  match blocks with
  | [] => unique
  | b :: bs =>
      if existsb (fun u => is_similar threshold (blk_text b) (blk_text u)) unique
      then dedup_go threshold unique bs
      else dedup_go threshold (unique ++ [b])%list bs
  end.

(** [deduplicate] *)
Definition deduplicate (threshold : Q) (blocks : list block) : list block :=
  dedup_go threshold [] blocks.

(** [sorted(deduped, key=avg_score, reverse=True)] *)
Definition avg_before (y x : block) : bool :=
  Qle_bool (blk_avg_score x) (blk_avg_score y).

(** Round half to even, as Python's float formatting does on the exact
    value. *)
Definition round_half_even (q : Q) : Z :=
  let f := Qfloor q in
  let r := (q - inject_Z f)%Q in
  if qlt r (1 # 2) then f
  else if qlt (1 # 2) r then (f + 1)%Z
  else if Z.even f then f else (f + 1)%Z.

Definition pad3 (n : Z) : string :=
  if (n <? 10)%Z then "00" ++ Py.show_Z n
  else if (n <? 100)%Z then "0" ++ Py.show_Z n
  else Py.show_Z n.

(** [f"{x:.3f}"] *)
Definition format_3f (x : Q) : string :=
  let n := round_half_even (Qabs x * (1000 # 1))%Q in
  (if qlt x 0 then "-" else "") ++ Py.show_Z (n / 1000) ++ "." ++ pad3 (n mod 1000).

Definition show_ext (x : ext) : string :=
  match x with Fin z => Py.show_Z z | Inf => "inf" end.

(** [str(list)] of chunk indices. *)
Definition show_indices (l : list ext) : string :=
  "[" ++ Py.join ", " (map show_ext l) ++ "]".

(** The header and text of one emitted block. *)
Definition render_block (b : block) : string :=
  "### Section: " ++ blk_section b ++ Py.nl ++
  "Source: " ++ blk_source b ++ Py.nl ++
  "ChunkIndices: " ++ show_indices (blk_chunk_indices b) ++ Py.nl ++
  "AvgScore: " ++ format_3f (blk_avg_score b) ++ Py.nl ++
  blk_text b.

Definition block_sep : string := Py.nl ++ Py.nl ++ "---" ++ Py.nl ++ Py.nl.

(** The constructor arguments of [ContextAssembler]. *)
Record config := mkConfig {
  max_chunks : Z;
  similarity_threshold : Q;
  neighbor_gap : Z
}.

(** [ContextAssembler()]: [max_chunks=6, similarity_threshold=0.80,
    neighbor_gap=1]. *)
Definition default_config : config := mkConfig 6 (4 # 5) 1.

(** [assemble], with its three early returns. *)
Definition assemble (cfg : config) (search_results : list hit) : string :=
  match search_results with
  | [] => ""
  | _ =>
      let grouped := group_by_section search_results in
      match grouped with
      | [] => ""
      | _ =>
          let stitched := stitch_neighbors (neighbor_gap cfg) grouped in
          match stitched with
          | [] => ""
          | _ =>
              let deduped := deduplicate (similarity_threshold cfg) stitched in
              let selected := Py.take (max_chunks cfg) (Py.sort avg_before deduped) in
              Py.join block_sep (map render_block selected)
          end
      end
  end.

(** The list [selected] of blocks that [assemble] renders; empty on each
    early return. *)
Definition selected_blocks (cfg : config) (search_results : list hit) : list block :=
  match search_results with
  | [] => []
  | _ =>
      let grouped := group_by_section search_results in
      match grouped with
      | [] => []
      | _ =>
          let stitched := stitch_neighbors (neighbor_gap cfg) grouped in
          match stitched with
          | [] => []
          | _ =>
              let deduped := deduplicate (similarity_threshold cfg) stitched in
              Py.take (max_chunks cfg) (Py.sort avg_before deduped)
          end
      end
  end.

End Assembler.

(* ------------------------------------------------------------------ *)
(** ** Sentence splitting shared by the chunker and the parser *)

Module Split.

Definition is_punct (c : ascii) : bool :=
  Ascii.eqb c "."%char || Ascii.eqb c "!"%char || Ascii.eqb c "?"%char.

(** Scanner state: previous character is not [.!?] / is one of [.!?] /
    inside a run of separators consumed by a match. *)
Inductive mode := AfterOther | AfterPunct | InSep.

Definition mode_of (c : ascii) : mode := if is_punct c then AfterPunct else AfterOther.

(** [re.split(r'(?<=[.!?])X+', text)] where [X] is matched by [is_sep]:
    a match starts at a separator preceded by [.!?] and takes the whole
    run of separators. *)
Fixpoint split_go (is_sep : ascii -> bool) (m : mode) (cur : list ascii)
    (s : string) : list string :=
  match s with
  | EmptyString => [string_of_list_ascii (rev cur)]
  | String c s' =>
      match m with
      | InSep =>
          if is_sep c then split_go is_sep InSep [] s'
          else split_go is_sep (mode_of c) [c] s'
      | AfterPunct =>
          if is_sep c then string_of_list_ascii (rev cur) :: split_go is_sep InSep [] s'
          else split_go is_sep (mode_of c) (c :: cur) s'
      | AfterOther => split_go is_sep (mode_of c) (c :: cur) s'
      end
  end.

Definition re_split (is_sep : ascii -> bool) (text : string) : list string :=
  split_go is_sep AfterOther [] text.

Definition is_blank (c : ascii) : bool := Ascii.eqb c " "%char.

End Split.

(* ------------------------------------------------------------------ *)
(** ** Semantic chunker (app/utils/semantic_chunker.py) *)

Module Chunker.

Local Open Scope float_scope.

Definition dot (v w : list float) : float :=
  fold_left (fun acc '(x, y) => acc + x * y) (combine v w) 0.

(** [np.linalg.norm] of a 1-d array. *)
Definition norm (v : list float) : float := PrimFloat.sqrt (dot v v).

(** [cosine_similarity]; the embedding provider returns vectors of one
    dimension (spec, section 6), so the pairing of [combine] is total. *)
Definition cosine_similarity (vec1 vec2 : list float) : float :=
  dot vec1 vec2 / (norm vec1 * norm vec2).

Local Close Scope float_scope.

(** [sentences = [s.strip() for s in re.split(r'(?<=[.!?]) +', text) if s.strip()]] *)
Definition sentences_of (text : string) : list string :=
  map Py.strip (filter (fun s => Py.truthy (Py.strip s))
                       (Split.re_split Split.is_blank text)).

(** One iteration of the [for i in range(1, len(sentences))] loop; the
    state is [(chunks, current_chunk, last_vec)]. *)
Definition chunk_step (embed : string -> list float) (max_tokens : Z)
    (similarity_threshold : float)
    (st : list string * string * list float) (s : string)
    : list string * string * list float :=
  let '(chunks, current_chunk, last_vec) := st in
  let v := embed s in
  let sim := cosine_similarity last_vec v in
  let candidate := current_chunk ++ " " ++ s in
  if PrimFloat.ltb sim similarity_threshold
     || (max_tokens <? Z.of_nat (String.length candidate))%Z
  then ((chunks ++ [Py.strip current_chunk])%list, s, v)
  else (chunks, candidate, v).

(** [semantic_chunk_text]; [embed] gives the vector that
    [generate_embeddings_batch] returns for each sentence. *)
Definition semantic_chunk_text (embed : string -> list float) (text : string)
    (max_tokens : Z) (similarity_threshold : float) : list string :=
  match sentences_of text with
  | [] => []
  | s0 :: rest =>
      let '(chunks, current_chunk, _) :=
        fold_left (chunk_step embed max_tokens similarity_threshold)
                  rest ([], s0, embed s0) in
      if Py.truthy (Py.strip current_chunk)
      then (chunks ++ [Py.strip current_chunk])%list else chunks
  end.

End Chunker.

(* ------------------------------------------------------------------ *)
(** ** Query optimizer (app/utils/query_optimizer.py) *)

Module Optimizer.

(** [set(stopwords.words("english"))] of NLTK. *)
Definition english_stop_words : list string :=
  ["i"; "me"; "my"; "myself"; "we"; "our"; "ours"; "ourselves"; "you";
   "you're"; "you've"; "you'll"; "you'd"; "your"; "yours"; "yourself";
   "yourselves"; "he"; "him"; "his"; "himself"; "she"; "she's"; "her";
   "hers"; "herself"; "it"; "it's"; "its"; "itself"; "they"; "them";
   "their"; "theirs"; "themselves"; "what"; "which"; "who"; "whom"; "this";
   "that"; "that'll"; "these"; "those"; "am"; "is"; "are"; "was"; "were";
   "be"; "been"; "being"; "have"; "has"; "had"; "having"; "do"; "does";
   "did"; "doing"; "a"; "an"; "the"; "and"; "but"; "if"; "or"; "because";
   "as"; "until"; "while"; "of"; "at"; "by"; "for"; "with"; "about";
   "against"; "between"; "into"; "through"; "during"; "before"; "after";
   "above"; "below"; "to"; "from"; "up"; "down"; "in"; "out"; "on"; "off";
   "over"; "under"; "again"; "further"; "then"; "once"; "here"; "there";
   "when"; "where"; "why"; "how"; "all"; "any"; "both"; "each"; "few";
   "more"; "most"; "other"; "some"; "such"; "no"; "nor"; "not"; "only";
   "own"; "same"; "so"; "than"; "too"; "very"; "s"; "t"; "can"; "will";
   "just"; "don"; "don't"; "should"; "should've"; "now"; "d"; "ll"; "m";
   "o"; "re"; "ve"; "y"; "ain"; "aren"; "aren't"; "couldn"; "couldn't";
   "didn"; "didn't"; "doesn"; "doesn't"; "hadn"; "hadn't"; "hasn";
   "hasn't"; "haven"; "haven't"; "isn"; "isn't"; "ma"; "mightn";
   "mightn't"; "mustn"; "mustn't"; "needn"; "needn't"; "shan"; "shan't";
   "shouldn"; "shouldn't"; "wasn"; "wasn't"; "weren"; "weren't"; "won";
   "won't"; "wouldn"; "wouldn't"].

(** The state of a [QueryOptimizer]: its stopword set, its sentence
    encoder ([self.model.encode] of one text) and [top_k]. *)
Record optimizer := mkOptimizer {
  stop_words : list string;
  encode : string -> list float;
  top_k : Z
}.

Definition keep_char (c : ascii) : bool :=
  let n := nat_of_ascii c in
  ((97 <=? n) && (n <=? 122)) || ((48 <=? n) && (n <=? 57)) || Py.is_space c.

Fixpoint filter_string (p : ascii -> bool) (s : string) : string :=
  match s with
  | EmptyString => EmptyString
  | String c s' => if p c then String c (filter_string p s') else filter_string p s'
  end.

(** [clean]: [re.sub(r"[^a-z0-9\s]", "", query.lower().strip())] *)
Definition clean (query : string) : string :=
  filter_string keep_char (Py.strip (Py.lower query)).

Definition is_stop_word (o : optimizer) (t : string) : bool :=
  existsb (String.eqb t) (stop_words o).

(** [tokens = [t for t in query.split() if t not in self.stop_words and len(t) > 2]] *)
Definition kept_tokens (o : optimizer) (query : string) : list string :=
  filter (fun t => negb (is_stop_word o t) && (2 <? String.length t))
         (Py.split_ws query).

(** [_norm]: [sum(v ** 2 for v in vec) ** 0.5] *)
Definition norm (vec : list float) : float :=
  PrimFloat.sqrt (fold_left (fun acc v => acc + v * v)%float vec 0%float).

(** The similarity of a token: [(te @ qe) / (_norm(te) * _norm(qe) + 1e-8)];
    [0x1.5798ee2308c3ap-27] is the double nearest to [1e-8]. *)
Definition token_similarity (te qe : list float) : float :=
  (Chunker.dot te qe / (norm te * norm qe + 0x1.5798ee2308c3ap-27))%float.

(** [similarities.sort(key=lambda x: x[1], reverse=True)] *)
Definition sim_before (y x : string * float) : bool :=
  negb (PrimFloat.ltb (snd y) (snd x)).

(** [extract_keywords] *)
Definition extract_keywords (o : optimizer) (query : string) : list string :=
  match kept_tokens o query with
  | [] => Py.split_ws query
  | tokens =>
      let query_embedding := encode o query in
      let similarities :=
        map (fun t => (t, token_similarity (encode o t) query_embedding)) tokens in
      map fst (Py.take (top_k o) (Py.sort sim_before similarities))
  end.

(** [optimize] *)
Definition optimize (o : optimizer) (query : string) : string :=
  Py.join " " (extract_keywords o (clean query)).

End Optimizer.

(* ------------------------------------------------------------------ *)
(** ** Structured document parser (app/utils/structured_pdf_parser.py) *)

(** The document is given as PyMuPDF returns it: a list of pages, each a
    list of [page.get_text("dict")] blocks.  The font analysis
    ([_analyze_font_styles]) and the header/footer detection
    ([_detect_headers_footers]) are inputs: the heading sizes, the body
    size, and for each block whether its rectangle meets a header/footer
    rectangle. *)
Module Parser.

Record span := mkSpan { sp_text : string; sp_size : Q }.

Definition line := list span.

Record pblock := mkPBlock {
  b_in_header_footer : bool;     (* any(block_rect.intersects(r) ...) *)
  b_lines : option (list line)   (* None: "lines" not in b *)
}.

(** A page with extractable text, or one whose [page.get_text().strip()]
    is empty and goes through [_handle_scanned_page]. *)
Inductive page := TextPage (blocks : list pblock) | ScannedPage.

Record chunk := mkChunk {
  c_text : string;
  c_doc_title : string;
  c_section_path : string;
  c_path : string;
  c_chunk_index : Z
}.

Fixpoint collapse_ws (in_ws : bool) (s : string) : string :=
  match s with
  | EmptyString => EmptyString
  | String c s' =>
      if Py.is_space c then
        (if in_ws then collapse_ws true s' else String " "%char (collapse_ws true s'))
      else String c (collapse_ws false s')
  end.

(** [_normalize_text]: [re.sub(r'\s+', ' ', text).strip()] *)
Definition normalize_text (text : string) : string := Py.strip (collapse_ws false text).

Definition make_chunk (text doc_title doc_path : string) (section_path : list string)
    (idx : Z) : chunk :=
  mkChunk (normalize_text text) doc_title (Py.join " > " section_path) doc_path idx.

(** [_split_text_into_chunks]; the [chunk_id] ([uuid4]) is not modelled. *)
Definition split_text_into_chunks (chunk_size_chars : Z) (text doc_title doc_path : string)
    (section_path : list string) (start_index : Z) : list chunk :=
  if negb (Py.truthy text) then []
  else
    let sentences := Split.re_split Py.is_space text in
    let '(chunks, current_chunk_text, chunk_idx) :=
      fold_left
        (fun '(chunks, cur, idx) sentence =>
           if (Z.of_nat (String.length cur + String.length sentence) <=? chunk_size_chars)%Z
           then (chunks, cur ++ " " ++ sentence, idx)
           else if Py.truthy (Py.strip cur)
           then ((chunks ++ [make_chunk cur doc_title doc_path section_path idx])%list,
                 sentence, (idx + 1)%Z)
           else (chunks, sentence, idx))
        sentences ([], "", start_index) in
    if Py.truthy (Py.strip current_chunk_text)
    then (chunks ++ [make_chunk current_chunk_text doc_title doc_path section_path chunk_idx])%list
    else chunks.

(** The parser's loop state: [chunks], [current_section_text],
    [section_path], [chunk_index]. *)
Record pstate := mkPState {
  ps_chunks : list chunk;
  ps_text : string;
  ps_path : list string;
  ps_index : Z
}.

(** The fixed inputs of [_parse_with_styles]. *)
Record parse_env := mkEnv {
  chunk_size_chars : Z;
  doc_title : string;
  doc_path : string;
  heading_styles : list Z;    (* the sizes [s[0]] of the heading styles *)
  body_style_size : Z
}.

Fixpoint heading_level_of (sizes : list Z) (line_size : Z) : nat :=
  match sizes with
  | [] => 0
  | s :: sizes' => if Z.eqb s line_size then 0 else S (heading_level_of sizes' line_size)
  end.

(** One line [l] of a kept block. *)
Definition line_step (env : parse_env) (st : pstate) (l : line) : pstate :=
  let span_sizes := map (fun s => Assembler.round_half_even (sp_size s))
                        (filter (fun s => Py.truthy (Py.strip (sp_text s))) l) in
  match span_sizes with
  | [] => st
  | z :: zs =>
      let line_size := fold_left Z.max zs z in
      let line_text := String.concat "" (map sp_text l) in
      if (body_style_size env <? line_size)%Z then
        let '(chunks, chunk_index) :=
          if Py.truthy (Py.strip (ps_text st)) then
            let new_chunks := split_text_into_chunks (chunk_size_chars env) (ps_text st)
                                (doc_title env) (doc_path env) (ps_path st) (ps_index st) in
            ((ps_chunks st ++ new_chunks)%list, (ps_index st + Z.of_nat (length new_chunks))%Z)
          else (ps_chunks st, ps_index st) in
        let heading_level := heading_level_of (heading_styles env) line_size in
        mkPState chunks ""
                 (firstn heading_level (ps_path st) ++ [normalize_text line_text])%list
                 chunk_index
      else mkPState (ps_chunks st) (ps_text st ++ " " ++ line_text) (ps_path st) (ps_index st)
  end.

Definition block_step (env : parse_env) (st : pstate) (b : pblock) : pstate :=
  if b_in_header_footer b then st
  else match b_lines b with
       | None => st
       | Some ls => fold_left (line_step env) ls st
       end.

(** The page loop.  A scanned page is replaced by a block
    [{"lines": ...}] without a ["bbox"] key, and [fitz.Rect(b["bbox"])]
    raises [KeyError]. *)
Fixpoint pages_step (env : parse_env) (pages : list page) (st : pstate) : result pstate :=
  match pages with
  | [] => Ok st
  | ScannedPage :: _ => Raise "KeyError: 'bbox'"
  | TextPage blocks :: pages' => pages_step env pages' (fold_left (block_step env) blocks st)
  end.

(** [_parse_with_styles] *)
Definition parse_with_styles (env : parse_env) (pages : list page) : result (list chunk) :=
  match pages_step env pages (mkPState [] "" [] 0) with
  | Raise e => Raise e
  | Ok st =>
      if Py.truthy (Py.strip (ps_text st))
      then Ok (ps_chunks st ++ split_text_into_chunks (chunk_size_chars env) (ps_text st)
                 (doc_title env) (doc_path env) (ps_path st) (ps_index st))%list
      else Ok (ps_chunks st)
  end.

End Parser.

(* ------------------------------------------------------------------ *)
(** ** Text helpers (app/utils/helpers.py, app/utils/text_splitter.py) *)

Module Helpers.

(** [clean_text]: [re.sub(r'\s+', ' ', text)], then [.strip()]. *)
Definition clean_text (text : string) : string :=
  Py.strip (Parser.collapse_ws false text).

End Helpers.

Module TextSplitter.

(** [split_text]: sentences of [re.split(r'(?<=[.!?]) +', text)] packed
    greedily; the state is [(chunks, current_chunk)]. *)
Definition split_text (text : string) (max_tokens : Z) : list string :=
  let sentences := Split.re_split Split.is_blank text in
  let '(chunks, current_chunk) :=
    fold_left
      (fun '(chunks, cur) sentence =>
         if (Z.of_nat (String.length cur + String.length sentence) <=? max_tokens)%Z
         then (chunks, cur ++ " " ++ sentence)
         else ((if Py.truthy (Py.strip cur) then (chunks ++ [Py.strip cur])%list
                else chunks), sentence))
      sentences ([], "") in
  if Py.truthy (Py.strip current_chunk)
  then (chunks ++ [Py.strip current_chunk])%list else chunks.

End TextSplitter.

(* ------------------------------------------------------------------ *)
(** ** Document metadata, page choice and font styles of the PDF parser *)

Module ParserAux.

Definition has_char (c : ascii) (s : string) : bool :=
  existsb (Ascii.eqb c) (list_ascii_of_string s).

(** [posixpath.basename]: the text after the last ['/']. *)
Fixpoint basename (p : string) : string :=
  match p with
  | EmptyString => EmptyString
  | String c p' =>
      if has_char "/" p' then basename p'
      else if Ascii.eqb c "/" then p' else p
  end.

(** [str.replace(old, new)]: non-overlapping matches from the left; [fuel]
    bounds the scan, and is the length of [s] plus one. *)
Fixpoint replace_go (fuel : nat) (old new s : string) : string :=
  match fuel with
  | O => s
  | S f =>
      match s with
      | EmptyString => EmptyString
      | String c s' =>
          if String.prefix old s
          then new ++ replace_go f old new
                      (substring (String.length old) (String.length s) s)
          else String c (replace_go f old new s')
      end
  end.

(** [s.replace(old, new)] for a non-empty [old]. *)
Definition replace (old new s : string) : string :=
  replace_go (S (String.length s)) old new s.

(** [doc_title] of [_get_doc_metadata]:
    [os.path.basename(file_path).replace("_", " ").replace(".pdf", "")];
    [doc_uri] depends on the working directory and is not modelled. *)
Definition doc_title_of (file_path : string) : string :=
  replace ".pdf" "" (replace "_" " " (basename file_path)).

(** [list(range(a, b))] *)
Definition range (a b : Z) : list Z :=
  map (fun i => (a + Z.of_nat i)%Z) (seq 0 (Z.to_nat (b - a))).

(** The pages [_detect_headers_footers] reads, for [len(doc) = n] and
    [num_pages_to_check = k]: none if [len(doc) <= 1] (it returns [[]]);
    otherwise [list(range(min(k, n)))], then [list(range(n - k, n))] if
    [n > k * 2]. *)
Definition page_indices (k n : Z) : list Z :=
  if (n <=? 1)%Z then []
  else (range 0 (Z.min k n) ++ (if (k * 2 <? n)%Z then range (n - k) n else []))%list.

(** A span of [page.get_text("dict")] with the keys [_analyze_font_styles]
    reads. *)
Record fspan := mkFSpan {
  fs_size : Q;
  fs_font : string;
  fs_flags : Z;
  fs_text : string
}.

(** [(round(s["size"]), s["font"], s["flags"])] *)
Definition style := (Z * string * Z)%type.

Definition style_size (st : style) : Z := fst (fst st).

Definition style_eqb (a b : style) : bool :=
  let '(s1, f1, g1) := a in
  let '(s2, f2, g2) := b in
  Z.eqb s1 s2 && String.eqb f1 f2 && Z.eqb g1 g2.

(** [styles[style] += n] on a [defaultdict(int)]: the key is created with
    [0] first, so it is created even when [n = 0]. *)
Fixpoint count_add (k : style) (n : Z) (m : list (style * Z)) : list (style * Z) :=
  match m with
  | [] => [(k, n)]
  | (k', c) :: m' => if style_eqb k' k then (k', (c + n)%Z) :: m'
                     else (k', c) :: count_add k n m'
  end.

(** A page's blocks; [None] is a block without ["lines"]. *)
Definition fpage := list (option (list (list fspan))).

(** The counting loop of [_analyze_font_styles]. *)
Definition collect_styles (doc : list fpage) : list (style * Z) :=
  fold_left (fun styles (pg : fpage) =>
    fold_left (fun styles b =>
      match b with
      | None => styles
      | Some lines =>
          fold_left (fun styles l =>
            fold_left (fun styles s =>
              count_add (Assembler.round_half_even (fs_size s), fs_font s, fs_flags s)
                        (Z.of_nat (String.length (fs_text s))) styles)
              l styles)
            lines styles
      end) pg styles) doc [].

(** [_analyze_font_styles]: [(heading_styles, body_style_size)]; the
    [0.0] of the empty case compares as [0]. *)
Definition analyze_font_styles (doc : list fpage) : list style * Z :=
  let styles := collect_styles doc in
  match styles with
  | [] => ([], 0%Z)
  | _ =>
      let sorted_styles :=
        Py.sort (fun y x : style * Z => negb (snd y <? snd x)%Z) styles in
      let body_style_size :=
        match sorted_styles with
        | (st, _) :: _ => style_size st
        | [] => 0%Z
        end in
      let heading_styles :=
        Py.sort (fun y x => negb (style_size y <? style_size x)%Z)
          (map fst (filter (fun p => (body_style_size <? style_size (fst p))%Z) styles)) in
      (heading_styles, body_style_size)
  end.

End ParserAux.

(* ------------------------------------------------------------------ *)
(** ** BM25 reranker (app/utils/bm25_reranker.py) *)

Module Reranker.

(** A value stored under ["bm25_score"]. *)
Inductive pyval := VFloat (f : float) | VStr (s : string) | VNone.

(** The value of [payload] on a candidate: missing (or [None] on an
    object), a [dict] given by its reference in the store, or another value
    that supports neither [.get] nor item assignment by a string key
    ([None] in a dict, a string, a list). *)
Inductive slot := Missing | PDict (p : nat) | PNotDict.

(** A candidate: a [dict], or another object with its [payload] attribute,
    its [bm25_score] attribute if it has one, and whether [setattr] succeeds
    on it (it raises on a [str], a [tuple] or a frozen object). *)
Inductive doc :=
  | DictDoc (payload : slot)
  | ObjDoc (payload : slot) (attr : option pyval) (settable : bool).

(** Candidates and payload dicts are objects shared by reference: two
    candidates may hold the same payload dict, and [rerank] mutates them in
    place.  [next_dict] is a reference that no dict has yet. *)
Record store := mkStore {
  cands : nat -> doc;
  dicts : nat -> list (string * pyval);
  next_dict : nat
}.

Definition upd {A} (f : nat -> A) (k : nat) (v : A) : nat -> A :=
  fun k' => if Nat.eqb k' k then v else f k'.

Fixpoint assoc_set (k : string) (v : pyval) (d : list (string * pyval))
    : list (string * pyval) :=
  match d with
  | [] => [(k, v)]
  | (k', v') :: d' => if String.eqb k' k then (k', v) :: d' else (k', v') :: assoc_set k v d'
  end.

Fixpoint assoc_get (k : string) (d : list (string * pyval)) : option pyval :=
  match d with
  | [] => None
  | (k', v) :: d' => if String.eqb k' k then Some v else assoc_get k d'
  end.

(** [payload["bm25_score"] = float(score)] on the dict [p]. *)
Definition write_score (st : store) (p : nat) (score : float) : store :=
  mkStore (cands st)
    (upd (dicts st) p (assoc_set "bm25_score" (VFloat score) (dicts st p)))
    (next_dict st).

(** [_set_score_on_doc] on the candidate [r].  On a dict whose payload is
    not a dict, and on an object with no payload dict on which [setattr]
    raises, both attempts raise and nothing changes. *)
Definition set_score_on_doc (st : store) (r : nat) (score : float) : store :=
  match cands st r with
  | DictDoc Missing =>
      (* [doc.setdefault("payload", {})] stores a new, empty dict in [doc] *)
      let p := next_dict st in
      write_score (mkStore (upd (cands st) r (DictDoc (PDict p)))
                           (upd (dicts st) p []) (S p)) p score
  | DictDoc (PDict p) => write_score st p score
  | DictDoc PNotDict => st
  | ObjDoc (PDict p) _ _ => write_score st p score
  | ObjDoc sl _ true =>
      mkStore (upd (cands st) r (ObjDoc sl (Some (VFloat score)) true))
              (dicts st) (next_dict st)
  | ObjDoc _ _ false => st
  end.

Section Scores.
(** Python's [float()] of a string; [None] when it raises. *)
Variable float_of_str : string -> option float.

Definition to_float (v : pyval) : option float :=
  match v with
  | VFloat f => Some f
  | VStr s => float_of_str s
  | VNone => None
  end.

(** [float(v)], with [0.0] when it raises. *)
Definition float_or_zero (v : option pyval) : float :=
  match v with
  | None => 0%float
  | Some v' => match to_float v' with Some f => f | None => 0%float end
  end.

(** [_get_score_from_doc] on the candidate [r]. *)
Definition get_score_from_doc (st : store) (r : nat) : float :=
  match cands st r with
  | DictDoc (PDict p) => float_or_zero (assoc_get "bm25_score" (dicts st p))
  | DictDoc _ => 0%float
  | ObjDoc (PDict p) a _ =>
      match assoc_get "bm25_score" (dicts st p) with
      | Some v => float_or_zero (Some v)
      | None => float_or_zero a
      end
  | ObjDoc _ a _ => float_or_zero a
  end.

(** The scoring loop of [rerank]:
    [s = float(scores[i]) if i < len(scores) else 0.0]. *)
Fixpoint set_scores (scores : list float) (i : nat) (st : store) (docs : list nat) : store :=
  match docs with
  | [] => st
  | r :: rs => set_scores scores (S i) (set_score_on_doc st r (nth i scores 0%float)) rs
  end.

(** [sorted(docs, key=_get_score_from_doc, reverse=True)] *)
Definition score_before (st : store) (y x : nat) : bool :=
  negb (PrimFloat.ltb (get_score_from_doc st y) (get_score_from_doc st x)).

(** [rerank], given [scores = self.bm25.get_scores(tokenized_query)] from
    [rank_bm25]: the store after the mutation and the returned list. *)
Definition rerank (scores : list float) (st : store) (docs : list nat) : store * list nat :=
  let st' := set_scores scores 0 st docs in
  (st', Py.sort (score_before st') docs).

End Scores.

End Reranker.

(* ------------------------------------------------------------------ *)
(** ** Properties and sample inputs used by the proofs *)

Module Props.

(** [y] stays in front of [x] in a stable sort. *)
Definition stays {A} (before : A -> A -> bool) (y x : A) : Prop := before y x = true.

(** [str.lstrip()] on the characters of a string. *)
Fixpoint lstrip_l (l : list ascii) : list ascii :=
  match l with
  | [] => []
  | c :: l' => if Py.is_space c then lstrip_l l' else l
  end.

Import Assembler.

(** [assemble] depends on its input only through the grouping. *)
Definition assemble_grouped (cfg : config) (grouped : list (string * list item)) : string :=
  match grouped with
  | [] => ""
  | _ =>
      match stitch_neighbors (neighbor_gap cfg) grouped with
      | [] => ""
      | stitched =>
          Py.join block_sep (map render_block
            (Py.take (max_chunks cfg)
               (Py.sort avg_before (deduplicate (similarity_threshold cfg) stitched))))
      end
  end.

(** The hit has a non-empty string under "content", "text" or "body". *)
Definition has_some_content (h : hit) : bool :=
  let p := payload_of h in
  existsb (fun o => match o with Some s => Py.truthy s | None => false end)
          [p_content p; p_text p; p_body p].

(** Two blocks that [deduplicate] may both keep: they are not similar in
    both directions. *)
Definition not_mutually_similar (threshold : Q) (a b : block) : Prop :=
  ~ (is_similar threshold (blk_text a) (blk_text b) = true /\
     is_similar threshold (blk_text b) (blk_text a) = true).

(** Two hits of different sections whose content is blank. *)
Definition blank_hits : list hit :=
  [mkHit (Some "p1") None (Some (mkPayload (Some "A") None None (Some "doc")
      None None (Some " ") None None (Some 0%Z))) (9 # 10);
   mkHit (Some "p2") None (Some (mkPayload (Some "B") None None (Some "doc")
      None None (Some " ") None None (Some 0%Z))) (8 # 10)].

(** Two hits of different sections whose texts are similar in one
    direction only. *)
Definition skewed_hits : list hit :=
  [mkHit (Some "p1") None (Some (mkPayload (Some "A") None None (Some "doc")
      None None (Some "cbccab") None None (Some 0%Z))) (9 # 10);
   mkHit (Some "p2") None (Some (mkPayload (Some "B") None None (Some "doc")
      None None (Some "cabccb") None None (Some 0%Z))) (8 # 10)].

Import Chunker.

(** A chunk respects the cap, or is one sentence longer than the cap. *)
Definition chunk_ok (text : string) (max_tokens : Z) (c : string) : Prop :=
  (Z.of_nat (String.length c) <= max_tokens)%Z \/
  (In c (sentences_of text) /\ (max_tokens < Z.of_nat (String.length c))%Z).

(** The running chunk respects the cap or is one sentence. *)
Definition current_ok (text : string) (max_tokens : Z) (cur : string) : Prop :=
  (Z.of_nat (String.length cur) <= max_tokens)%Z \/ In cur (sentences_of text).

Definition unit_embed (s : string) : list float := [1; 0]%float.

(** The first sentence embeds to the zero vector. *)
Definition zero_first_embed (s : string) : list float :=
  if String.eqb s "Hi." then [0; 0]%float else [1; 0]%float.

(** The two sentences embed to orthogonal vectors. *)
Definition orthogonal_embed (s : string) : list float :=
  if String.eqb s "Hi." then [0; 1]%float else [1; 0]%float.

(** [start, start + 1, ..., start + n - 1]. *)
Fixpoint zseq (start : Z) (n : nat) : list Z :=
  match n with
  | O => []
  | S n' => start :: zseq (start + 1)%Z n'
  end.

(** The parser's state numbers its chunks [0, 1, ...] and [chunk_index]
    is the next number. *)
Definition indices_contiguous (st : Parser.pstate) : Prop :=
  map Parser.c_chunk_index (Parser.ps_chunks st) = zseq 0 (length (Parser.ps_chunks st)) /\
  Parser.ps_index st = Z.of_nat (length (Parser.ps_chunks st)).

(** A stand-in for [SentenceTransformer.encode]: the same vector for every text. *)
Definition constant_encoder (s : string) : list float := [1; 0]%float.

(** A [QueryOptimizer] with NLTK's English stopwords and [top_k = 5]. *)
Definition nltk_optimizer : Optimizer.optimizer :=
  Optimizer.mkOptimizer Optimizer.english_stop_words constant_encoder 5.

(** A whitespace-free, non-empty token, as [str.split()] yields them. *)
Definition is_word (w : string) : Prop :=
  w <> "" /\ Forall (fun c => Py.is_space c = false) (list_ascii_of_string w).

(** The first and last characters of a non-empty string are not whitespace. *)
Definition trimmed (j : list ascii) : Prop :=
  j = [] \/
  ((exists c t, j = c :: t /\ Py.is_space c = false) /\
   (exists t c, j = (t ++ [c])%list /\ Py.is_space c = false)).

(** [l1] is [l2] with some of its elements left out, the others in order. *)
Inductive subseq {A} : list A -> list A -> Prop :=
  | subseq_nil : subseq [] []
  | subseq_keep x l1 l2 : subseq l1 l2 -> subseq (x :: l1) (x :: l2)
  | subseq_drop x l1 l2 : subseq l1 l2 -> subseq l1 (x :: l2).

(** The payload dict a reranker candidate refers to. *)
Definition payload_ref (d : Reranker.doc) : option nat :=
  match d with
  | Reranker.DictDoc (Reranker.PDict p) | Reranker.ObjDoc (Reranker.PDict p) _ _ => Some p
  | _ => None
  end.

(** Whether [_set_score_on_doc] can store a score on a candidate: not on a
    dict whose payload is not a dict, nor on an object with no payload dict
    that refuses [setattr]. *)
Definition holds_score (d : Reranker.doc) : bool :=
  match d with
  | Reranker.DictDoc Reranker.PNotDict => false
  | Reranker.DictDoc _ => true
  | Reranker.ObjDoc (Reranker.PDict _) _ _ => true
  | Reranker.ObjDoc _ _ settable => settable
  end.

(** A reranker store: candidates [0] and [1] are dicts sharing the payload
    dict [0], candidate [2] is a [str], and the others are dicts without a
    payload. *)
Definition shared_payload_store : Reranker.store :=
  Reranker.mkStore
    (fun r => match r with
              | 0 | 1 => Reranker.DictDoc (Reranker.PDict 0)
              | 2 => Reranker.ObjDoc Reranker.Missing None false
              | _ => Reranker.DictDoc Reranker.Missing
              end)
    (fun _ => []) 1.

(** No candidate refers to a dict at or past [next_dict]. *)
Definition store_ok (st : Reranker.store) : Prop :=
  forall r p, payload_ref (Reranker.cands st r) = Some p -> p < Reranker.next_dict st.

(** [cur] comes from [st] by allocating dicts: a candidate refers to the
    payload dict it referred to in [st], or to a dict allocated since, which
    no other candidate refers to. *)
Definition allocated_from (st cur : Reranker.store) : Prop :=
  Reranker.next_dict st <= Reranker.next_dict cur /\
  forall x, payload_ref (Reranker.cands cur x) = payload_ref (Reranker.cands st x) \/
    exists q, Reranker.next_dict st <= q < Reranker.next_dict cur /\
              payload_ref (Reranker.cands cur x) = Some q /\
              (forall y, payload_ref (Reranker.cands cur y) = Some q -> y = x).

End Props.

(* ================================================================== *)
(** * Proofs *)

(** ** Facts on the stable sort and on slicing *)

Module SortFacts.
Import Props.

Section Facts.
Context {A : Type} (before : A -> A -> bool).

Lemma insert_perm (x : A) (l : list A) : Permutation (Py.insert before x l) (x :: l).
Proof.
  induction l as [|y l IH]; simpl; [reflexivity|].
  destruct (before y x); [|reflexivity].
  rewrite IH. apply perm_swap.
Qed.

Lemma sort_go_perm (l acc : list A) :
  Permutation (fold_left (fun acc x => Py.insert before x acc) l acc) (l ++ acc).
Proof.
  revert acc; induction l as [|x l IH]; intros acc; simpl; [reflexivity|].
  rewrite IH, insert_perm. symmetry. apply Permutation_middle.
Qed.

Lemma sort_perm (l : list A) : Permutation (Py.sort before l) l.
Proof. unfold Py.sort. rewrite sort_go_perm, app_nil_r. reflexivity. Qed.


Hypothesis before_total : forall x y, before x y = false -> before y x = true.

Lemma insert_hd (y x : A) (l : list A) :
  stays before y x -> HdRel (stays before) y l -> HdRel (stays before) y (Py.insert before x l).
Proof.
  intros Hyx Hl. destruct l as [|z l]; simpl; [constructor; exact Hyx|].
  destruct (before z x); constructor; [now inversion Hl|exact Hyx].
Qed.

Lemma insert_sorted (x : A) (l : list A) :
  Sorted (stays before) l -> Sorted (stays before) (Py.insert before x l).
Proof.
  induction l as [|y l IH]; intros Hs; simpl; [constructor; constructor|].
  apply Sorted_inv in Hs as [Hl Hhd].
  destruct (before y x) eqn:E.
  - constructor; [now apply IH|now apply insert_hd].
  - constructor; [constructor; assumption|constructor; now apply before_total].
Qed.

Lemma sort_sorted (l : list A) : Sorted (stays before) (Py.sort before l).
Proof.
  unfold Py.sort.
  assert (G : forall acc, Sorted (stays before) acc ->
            Sorted (stays before) (fold_left (fun acc x => Py.insert before x acc) l acc)).
  { induction l as [|x l IH]; intros acc Hs; simpl; [exact Hs|].
    apply IH, insert_sorted, Hs. }
  apply G; constructor.
Qed.

End Facts.

Lemma firstn_sorted {A} (R : A -> A -> Prop) (n : nat) (l : list A) :
  Sorted R l -> Sorted R (firstn n l).
Proof.
  revert l; induction n as [|n IH]; intros l Hs; [constructor|].
  destruct l as [|x l]; [constructor|]; simpl.
  apply Sorted_inv in Hs as [Hl Hhd]. constructor; [now apply IH|].
  destruct n, l; simpl; try constructor. now inversion Hhd.
Qed.

Lemma in_firstn {A} (n : nat) (l : list A) (x : A) : In x (firstn n l) -> In x l.
Proof.
  intros H. rewrite <- (firstn_skipn n l). apply in_or_app. now left.
Qed.

Lemma firstn_nodup {A} (n : nat) (l : list A) : NoDup l -> NoDup (firstn n l).
Proof.
  revert l; induction n as [|n IH]; intros l Hd; [constructor|].
  destruct l as [|x l]; [constructor|]; simpl.
  inversion Hd; subst. constructor; [|now apply IH].
  intros Hin; apply in_firstn in Hin. contradiction.
Qed.

Lemma sorted_impl {A} (R R' : A -> A -> Prop) (l : list A) :
  (forall a b, R a b -> R' a b) -> Sorted R l -> Sorted R' l.
Proof.
  intros HR Hs. induction Hs as [|a l Hs IH Hhd]; constructor; [exact IH|].
  destruct Hhd; constructor. now apply HR.
Qed.

Lemma take_nonneg {A} (k : Z) (l : list A) :
  (0 <= k)%Z -> Py.take k l = firstn (Z.to_nat k) l.
Proof. intros Hk. unfold Py.take. now replace (0 <=? k)%Z with true by lia. Qed.

Lemma take_firstn {A} (k : Z) (l : list A) : exists n, Py.take k l = firstn n l.
Proof. unfold Py.take. destruct (0 <=? k)%Z; eexists; reflexivity. Qed.

End SortFacts.

(** ** Hybrid merge *)

Module MergeProofs.
Import Merge.

Lemma score_before_total (x y : candidate) :
  score_before x y = false -> score_before y x = true.
Proof.
  unfold score_before. intros H. apply Qle_bool_iff.
  assert (N : ~ (cand_score y <= cand_score x)%Q).
  { intros C. apply Qle_bool_iff in C. congruence. }
  apply Qlt_le_weak, Qnot_le_lt, N.
Qed.

Lemma dict_set_keys (c : candidate) (d : list candidate) (k : string) :
  In k (map cand_id (dict_set c d)) -> k = cand_id c \/ In k (map cand_id d).
Proof.
  induction d as [|y d IH]; simpl; [intuition|].
  destruct (String.eqb (cand_id y) (cand_id c)) eqn:E; simpl.
  - apply String.eqb_eq in E. intros [H|H]; [left; congruence|right; now right].
  - intros [H|H]; [right; now left|]. destruct (IH H); [now left|right; now right].
Qed.

Lemma dict_set_nodup (c : candidate) (d : list candidate) :
  NoDup (map cand_id d) -> NoDup (map cand_id (dict_set c d)).
Proof.
  induction d as [|y d IH]; simpl; intros Hd; [constructor; [easy|constructor]|].
  inversion Hd as [|? ? Hy Hd']; subst.
  destruct (String.eqb (cand_id y) (cand_id c)) eqn:E; simpl.
  - apply String.eqb_eq in E. rewrite <- E. now constructor.
  - constructor; [|now apply IH].
    intros Hin. destruct (dict_set_keys c d _ Hin) as [Heq|Hin'].
    + rewrite Heq, String.eqb_refl in E. discriminate.
    + contradiction.
Qed.

Lemma overlay_nodup (l d : list candidate) :
  NoDup (map cand_id d) ->
  NoDup (map cand_id (fold_left (fun d c => dict_set c d) l d)).
Proof.
  revert d; induction l as [|c l IH]; intros d Hd; simpl; [exact Hd|].
  apply IH, dict_set_nodup, Hd.
Qed.

(** Claim C1: in hybrid mode [search_documents] returns the merged list,
    which has no two entries with the same chunk id, at most [top_k]
    entries, and is sorted by score, highest first. *)
Theorem hybrid_merge_dedup_bounded_sorted
    (semantic_results keyword_results : list candidate) (top_k : nat) :
  exists out,
    search_documents "hybrid" semantic_results keyword_results top_k = Ok out /\
    NoDup (map cand_id out) /\
    length out <= top_k /\
    Sorted (fun a b => (cand_score b <= cand_score a)%Q) out.
Proof.
  exists (merge_results semantic_results keyword_results top_k).
  split; [reflexivity|]. unfold merge_results.
  set (merged := fold_left _ keyword_results _).
  assert (Hm : NoDup (map cand_id merged)) by (apply overlay_nodup, overlay_nodup; constructor).
  split; [|split].
  - rewrite <- firstn_map. apply SortFacts.firstn_nodup.
    eapply Permutation_NoDup; [|exact Hm].
    apply Permutation_map. symmetry. apply SortFacts.sort_perm.
  - apply firstn_le_length.
  - apply SortFacts.firstn_sorted.
    eapply SortFacts.sorted_impl; [|apply SortFacts.sort_sorted, score_before_total].
    intros a b H. unfold Props.stays, score_before in H. now apply Qle_bool_iff.
Qed.

End MergeProofs.

(** ** Context assembler *)

Module AssemblerProofs.
Import Assembler Props.

(** [assemble] renders exactly the blocks of [selected_blocks]. *)
Lemma assemble_renders (cfg : config) (search_results : list hit) :
  assemble cfg search_results =
  Py.join block_sep (map render_block (selected_blocks cfg search_results)).
Proof.
  unfold assemble, selected_blocks.
  destruct search_results; [reflexivity|].
  destruct (group_by_section _); [reflexivity|].
  destruct (stitch_neighbors _ _); reflexivity.
Qed.


Lemma assemble_via_grouping (cfg : config) (search_results : list hit) :
  assemble cfg search_results = assemble_grouped cfg (group_by_section search_results).
Proof.
  unfold assemble, assemble_grouped.
  destruct search_results; [reflexivity|].
  destruct (group_by_section _); [reflexivity|].
  destruct (stitch_neighbors _ _); reflexivity.
Qed.


Lemma or_get_truthy (l : list (option string)) :
  Py.truthy (or_get l) =
  existsb (fun o => match o with Some s => Py.truthy s | None => false end) l.
Proof.
  induction l as [|[s|] l IH]; simpl; [reflexivity| |exact IH].
  destruct (Py.truthy s) eqn:E; simpl; [exact E|exact IH].
Qed.

Lemma hit_has_content_iff (h : hit) : hit_has_content h = has_some_content h.
Proof. unfold hit_has_content, hit_content, has_some_content. apply or_get_truthy. Qed.

Lemma group_step_skip (g : list (string * list item)) (h : hit) :
  has_some_content h = false -> group_step g h = g.
Proof.
  rewrite <- hit_has_content_iff. unfold hit_has_content, hit_content, group_step.
  intros E. now rewrite E.
Qed.

Lemma group_by_section_filter (search_results : list hit) :
  group_by_section search_results =
  group_by_section (filter has_some_content search_results).
Proof.
  unfold group_by_section. generalize (@nil (string * list item)).
  induction search_results as [|h hs IH]; intros g; simpl; [reflexivity|].
  destruct (has_some_content h) eqn:E; simpl.
  - apply IH.
  - rewrite group_step_skip by exact E. apply IH.
Qed.

(** Claim C9: on no search results, the rendered context is the empty
    string and no block is emitted. *)
Theorem assemble_no_results (cfg : config) :
  assemble cfg [] = "" /\ selected_blocks cfg [] = [].
Proof. split; reflexivity. Qed.

(** Claim C10: [assemble] behaves as if every hit without a non-empty
    "content", "text" or "body" were absent; so when no hit has such
    content, it returns the empty string. *)
Theorem assemble_skips_contentless (cfg : config) (search_results : list hit) :
  group_by_section search_results =
    group_by_section (filter has_some_content search_results) /\
  assemble cfg search_results =
    assemble cfg (filter has_some_content search_results) /\
  (forallb (fun h => negb (has_some_content h)) search_results = true ->
   assemble cfg search_results = "").
Proof.
  split; [apply group_by_section_filter|].
  assert (E : assemble cfg search_results =
              assemble cfg (filter has_some_content search_results)).
  { rewrite !assemble_via_grouping, group_by_section_filter.
    now rewrite <- group_by_section_filter. }
  split; [exact E|].
  intros Hall. rewrite E. clear E.
  replace (filter has_some_content search_results) with (@nil hit); [reflexivity|].
  induction search_results as [|h hs IH]; simpl in *; [reflexivity|].
  apply andb_prop in Hall as [Hh Hs].
  destruct (has_some_content h); [discriminate|]. now apply IH.
Qed.

Lemma assemble_skips_contentless_witness :
  forallb (fun h => negb (has_some_content h))
    [mkHit (Some "p1") None (Some (mkPayload (Some "Intro") None None (Some "doc")
        None None (Some "") None None (Some 0%Z))) (9 # 10)] = true /\
  assemble default_config
    [mkHit (Some "p1") None (Some (mkPayload (Some "Intro") None None (Some "doc")
        None None (Some "") None None (Some 0%Z))) (9 # 10)] = "".
Proof.
  split; [reflexivity|].
  apply (proj2 (proj2 (assemble_skips_contentless default_config _))).
  reflexivity.
Defined.


Lemma fop_snoc {A} (R : A -> A -> Prop) (u : list A) (b : A) :
  ForallOrdPairs R u -> (forall a, In a u -> R a b) -> ForallOrdPairs R (u ++ [b]).
Proof.
  induction u as [|a u IH]; intros Hu Hb; simpl.
  - constructor; constructor.
  - inversion Hu as [|? ? Ha Hu']; subst. constructor.
    + apply Forall_app; split; [exact Ha|]. constructor; [apply Hb; now left|constructor].
    + apply IH; [exact Hu'|]. intros x Hx; apply Hb; now right.
Qed.

Lemma dedup_go_pairs (threshold : Q) (unique blocks : list block) :
  ForallOrdPairs (fun a b => is_similar threshold (blk_text b) (blk_text a) = false) unique ->
  ForallOrdPairs (fun a b => is_similar threshold (blk_text b) (blk_text a) = false)
                 (dedup_go threshold unique blocks).
Proof.
  revert unique; induction blocks as [|b bs IH]; intros unique Hu; simpl; [exact Hu|].
  destruct (existsb _ unique) eqn:E; apply IH; [exact Hu|].
  apply fop_snoc; [exact Hu|]. intros a Ha.
  destruct (is_similar threshold (blk_text b) (blk_text a)) eqn:S; [|reflexivity].
  assert (existsb (fun u => is_similar threshold (blk_text b) (blk_text u)) unique = true)
    by (apply existsb_exists; now exists a).
  congruence.
Qed.

Lemma fop_weaken {A} (R R' : A -> A -> Prop) (l : list A) :
  (forall a b, R a b -> R' a b) -> ForallOrdPairs R l -> ForallOrdPairs R' l.
Proof.
  intros HR H; induction H as [|a l Ha Hl IH]; constructor; [|exact IH].
  eapply Forall_impl; [|exact Ha]. intros; now apply HR.
Qed.

Lemma fop_perm {A} (R : A -> A -> Prop) (l l' : list A) :
  (forall a b, R a b -> R b a) ->
  Permutation l l' -> ForallOrdPairs R l -> ForallOrdPairs R l'.
Proof.
  intros Hsym P; induction P as [|x l l' P IH|x y l|l l' l'' P1 IH1 P2 IH2]; intros H.
  - exact H.
  - inversion H as [|? ? Hx Hl]; subst. constructor; [|now apply IH].
    apply Forall_forall; intros z Hz. rewrite Forall_forall in Hx.
    apply Hx. now apply (Permutation_in _ (Permutation_sym P)).
  - inversion H as [|? ? Hy Hl]; subst. inversion Hl as [|? ? Hx Hl']; subst.
    inversion Hy as [|? ? Hyx Hyl]; subst.
    constructor; [constructor; [now apply Hsym|exact Hx]|constructor; assumption].
  - now apply IH2, IH1.
Qed.

Lemma fop_firstn {A} (R : A -> A -> Prop) (n : nat) (l : list A) :
  ForallOrdPairs R l -> ForallOrdPairs R (firstn n l).
Proof.
  revert l; induction n as [|n IH]; intros l H; [constructor|].
  destruct l as [|x l]; [constructor|]. simpl.
  inversion H as [|? ? Hx Hl]; subst. constructor; [|now apply IH].
  apply Forall_forall; intros z Hz. rewrite Forall_forall in Hx.
  apply Hx. now apply (SortFacts.in_firstn n).
Qed.

Lemma fop_nth {A} (R : A -> A -> Prop) (l : list A) :
  (forall a b, R a b -> R b a) -> ForallOrdPairs R l ->
  forall i j a b, i <> j -> nth_error l i = Some a -> nth_error l j = Some b -> R a b.
Proof.
  intros Hsym H; induction H as [|x l Hx Hl IH];
    intros i j a b Hij Hi Hj; [destruct i; discriminate|].
  rewrite Forall_forall in Hx.
  destruct i as [|i], j as [|j]; simpl in Hi, Hj.
  - contradiction.
  - injection Hi as <-. apply Hx. eapply nth_error_In; exact Hj.
  - injection Hj as <-. apply Hsym, Hx. eapply nth_error_In; exact Hi.
  - apply (IH i j); [lia|exact Hi|exact Hj].
Qed.

Lemma deduped_selection_pairs (threshold : Q) (k : Z) (stitched : list block) :
  ForallOrdPairs (not_mutually_similar threshold)
    (Py.take k (Py.sort avg_before (deduplicate threshold stitched))).
Proof.
  destruct (SortFacts.take_firstn k (Py.sort avg_before (deduplicate threshold stitched)))
    as [n ->].
  apply fop_firstn.
  apply (fop_perm _ (deduplicate threshold stitched)).
  - unfold not_mutually_similar. intros a b N [H1 H2]. now apply N.
  - symmetry; apply SortFacts.sort_perm.
  - eapply fop_weaken; [|apply dedup_go_pairs; constructor].
    unfold not_mutually_similar. intros a b E [H1 H2]. congruence.
Qed.

(** Claim C3 (amended): for [max_chunks >= 0], the rendered context
    consists of at most [max_chunks] blocks, and no two of them are
    similar in both directions ([is_similar] is false on an empty text
    and is [SequenceMatcher(None, x, y).ratio() > threshold] otherwise). *)
Theorem assemble_bounded_and_deduplicated (cfg : config) (search_results : list hit) :
  (0 <= max_chunks cfg)%Z ->
  assemble cfg search_results =
    Py.join block_sep (map render_block (selected_blocks cfg search_results)) /\
  (Z.of_nat (length (selected_blocks cfg search_results)) <= max_chunks cfg)%Z /\
  (forall i j a b, i <> j ->
     nth_error (selected_blocks cfg search_results) i = Some a ->
     nth_error (selected_blocks cfg search_results) j = Some b ->
     ~ (is_similar (similarity_threshold cfg) (blk_text a) (blk_text b) = true /\
        is_similar (similarity_threshold cfg) (blk_text b) (blk_text a) = true)).
Proof.
  intros Hk. split; [apply assemble_renders|].
  assert (G : ForallOrdPairs (not_mutually_similar (similarity_threshold cfg))
                (selected_blocks cfg search_results) /\
              (Z.of_nat (length (selected_blocks cfg search_results)) <= max_chunks cfg)%Z).
  { unfold selected_blocks.
    destruct search_results; [split; [constructor|simpl; lia]|].
    destruct (group_by_section _); [split; [constructor|simpl; lia]|].
    destruct (stitch_neighbors _ _) as [|b bs]; [split; [constructor|simpl; lia]|].
    split; [apply deduped_selection_pairs|].
    rewrite SortFacts.take_nonneg by exact Hk.
    pose proof (firstn_le_length (Z.to_nat (max_chunks cfg))
                  (Py.sort avg_before (deduplicate (similarity_threshold cfg) (b :: bs)))).
    lia. }
  destruct G as [Hp Hl]. split; [exact Hl|].
  intros i j a b Hij Hi Hj.
  exact (fop_nth _ _ (fun a b N H => N (conj (proj2 H) (proj1 H))) Hp i j a b Hij Hi Hj).
Qed.

Lemma assemble_bounded_and_deduplicated_witness :
  (0 <= max_chunks default_config)%Z /\
  (Z.of_nat (length (selected_blocks default_config
     [mkHit (Some "p1") None (Some (mkPayload (Some "Intro") None None (Some "doc")
        None None (Some "alpha") None None (Some 0%Z))) (9 # 10)]))
   <= max_chunks default_config)%Z.
Proof.
  split; [vm_compute; discriminate|].
  apply (proj1 (proj2 (assemble_bounded_and_deduplicated default_config _ ltac:(vm_compute; discriminate)))).
Defined.



(** Claim C3 fails: with the default configuration, [assemble] emits two
    blocks with empty texts, whose [SequenceMatcher] ratio is 1.0; and two
    blocks "cbccab", "cabccb" with [SequenceMatcher(None, "cbccab",
    "cabccb").ratio() = 5/6 > 0.80]. *)
Lemma assemble_emits_similar_blocks :
  map blk_text (selected_blocks default_config blank_hits) = [""; ""] /\
  (similarity_threshold default_config < SeqMatch.ratio "" "")%Q /\
  map blk_text (selected_blocks default_config skewed_hits) = ["cbccab"; "cabccb"] /\
  SeqMatch.ratio "cbccab" "cabccb" = 10 # 12 /\
  (similarity_threshold default_config < SeqMatch.ratio "cbccab" "cabccb")%Q.
Proof.
  split; [vm_compute; reflexivity|].
  split; [vm_compute; reflexivity|].
  split; [vm_compute; reflexivity|].
  split; vm_compute; reflexivity.
Qed.

End AssemblerProofs.

(** ** Facts on [str.strip] *)

Module StrFacts.
Import Props.


Lemma lstrip_list (s : string) :
  list_ascii_of_string (Py.lstrip s) = lstrip_l (list_ascii_of_string s).
Proof.
  induction s as [|c s IH]; simpl; [reflexivity|].
  destruct (Py.is_space c); [exact IH|reflexivity].
Qed.

Lemma length_list (s : string) : String.length s = length (list_ascii_of_string s).
Proof. induction s as [|c s IH]; simpl; congruence. Qed.

Lemma strip_list (s : string) :
  list_ascii_of_string (Py.strip s) =
  rev (lstrip_l (rev (lstrip_l (list_ascii_of_string s)))).
Proof.
  unfold Py.strip, Py.rstrip.
  rewrite list_ascii_of_string_of_list_ascii, lstrip_list,
          list_ascii_of_string_of_list_ascii, lstrip_list.
  reflexivity.
Qed.

Lemma lstrip_l_length (l : list ascii) : length (lstrip_l l) <= length l.
Proof.
  induction l as [|c l IH]; simpl; [lia|]. destruct (Py.is_space c); simpl; lia.
Qed.

Lemma strip_length (s : string) : String.length (Py.strip s) <= String.length s.
Proof.
  rewrite !length_list, strip_list, length_rev.
  pose proof (lstrip_l_length (lstrip_l (list_ascii_of_string s))) as H1.
  pose proof (lstrip_l_length (rev (lstrip_l (list_ascii_of_string s)))) as H2.
  rewrite length_rev in H2. pose proof (lstrip_l_length (list_ascii_of_string s)). lia.
Qed.

Lemma lstrip_l_idem (l : list ascii) : lstrip_l (lstrip_l l) = lstrip_l l.
Proof.
  induction l as [|c l IH]; simpl; [reflexivity|].
  destruct (Py.is_space c) eqn:E; [exact IH|simpl; now rewrite E].
Qed.

Lemma lstrip_l_head (l t : list ascii) (c : ascii) :
  lstrip_l l = c :: t -> Py.is_space c = false.
Proof.
  induction l as [|d l IH]; simpl; [discriminate|].
  destruct (Py.is_space d) eqn:E; [exact IH|]. intros H; injection H as -> _. exact E.
Qed.

Lemma lstrip_l_snoc (x : list ascii) (c : ascii) :
  Py.is_space c = false -> exists y, lstrip_l (x ++ [c])%list = (y ++ [c])%list.
Proof.
  intros Hc. induction x as [|d x IH]; simpl.
  - rewrite Hc. now exists [].
  - destruct (Py.is_space d); [exact IH|]. now exists (d :: x).
Qed.

Lemma strip_idem (s : string) : Py.strip (Py.strip s) = Py.strip s.
Proof.
  rewrite <- (string_of_list_ascii_of_string (Py.strip (Py.strip s))),
          <- (string_of_list_ascii_of_string (Py.strip s)).
  f_equal. rewrite strip_list. rewrite strip_list.
  set (t := lstrip_l (list_ascii_of_string s)).
  set (u := rev (lstrip_l (rev t))).
  assert (Hu : lstrip_l u = u).
  { subst u. destruct t as [|c t'] eqn:Et; [reflexivity|].
    assert (Hc : Py.is_space c = false) by (eapply lstrip_l_head; exact Et).
    simpl. destruct (lstrip_l_snoc (rev t') c Hc) as [y ->].
    rewrite rev_app_distr. simpl. now rewrite Hc. }
  fold t. fold u. rewrite list_ascii_of_string_of_list_ascii, Hu.
  subst u. rewrite rev_involutive, lstrip_l_idem. reflexivity.
Qed.

End StrFacts.

(** ** Semantic chunker *)

Module ChunkerProofs.
Import Chunker Props.

Section Cap.
Variable embed : string -> list float.
Variable text : string.
Variable max_tokens : Z.
Variable similarity_threshold : float.



Local Notation chunk_ok := (Props.chunk_ok text max_tokens).
Local Notation current_ok := (Props.current_ok text max_tokens).

Lemma sentence_stripped (s : string) : In s (sentences_of text) -> Py.strip s = s.
Proof.
  unfold sentences_of. intros H. apply in_map_iff in H as [r [<- _]].
  apply StrFacts.strip_idem.
Qed.

Lemma flush_ok (cur : string) : current_ok cur -> chunk_ok (Py.strip cur).
Proof.
  intros [H|H].
  - left. pose proof (StrFacts.strip_length cur). lia.
  - rewrite (sentence_stripped cur H).
    destruct (Z_le_gt_dec (Z.of_nat (String.length cur)) max_tokens) as [L|L];
      [now left|right; split; [exact H|lia]].
Qed.

Lemma chunk_fold_ok (rest : list string) :
  forall chunks cur v,
  (forall s, In s rest -> In s (sentences_of text)) ->
  (forall c, In c chunks -> chunk_ok c) -> current_ok cur ->
  let '(chunks', cur', _) :=
    fold_left (chunk_step embed max_tokens similarity_threshold) rest (chunks, cur, v) in
  (forall c, In c chunks' -> chunk_ok c) /\ current_ok cur'.
Proof.
  induction rest as [|s rest IH]; intros chunks cur v Hrest Hch Hcur; simpl; [easy|].
  unfold chunk_step at 1.
  destruct (PrimFloat.ltb _ _ || _)%bool eqn:E.
  - apply IH.
    + intros x Hx; apply Hrest; now right.
    + intros c Hc. apply in_app_or in Hc as [Hc|[<-|[]]]; [now apply Hch|].
      now apply flush_ok.
    + right. apply Hrest. now left.
  - apply IH; [intros x Hx; apply Hrest; now right|exact Hch|].
    left. apply orb_false_iff in E as [_ E]. apply Z.ltb_ge in E. exact E.
Qed.

(** Claim C4: every chunk of [semantic_chunk_text] is at most [max_tokens]
    characters long, unless it is a single sentence that alone is longer. *)
Theorem semantic_chunks_within_cap (c : string) :
  In c (semantic_chunk_text embed text max_tokens similarity_threshold) ->
  (Z.of_nat (String.length c) <= max_tokens)%Z \/
  (In c (sentences_of text) /\ (max_tokens < Z.of_nat (String.length c))%Z).
Proof.
  intros Hc. cut (chunk_ok c); [exact (fun H => H)|]. revert Hc.
  unfold semantic_chunk_text.
  destruct (sentences_of text) as [|s0 rest] eqn:Es; [intros []|].
  pose proof (chunk_fold_ok rest [] s0 (embed s0)) as G.
  destruct (fold_left _ rest _) as [[chunks cur] v].
  destruct G as [Hch Hcur].
  - intros x Hx. rewrite Es. now right.
  - intros ? [].
  - right. rewrite Es. now left.
  - destruct (Py.truthy (Py.strip cur)); [|apply Hch].
    intros Hc. apply in_app_or in Hc as [Hc|[<-|[]]]; [now apply Hch|now apply flush_ok].
Qed.

End Cap.

Lemma semantic_chunks_within_cap_witness :
  In "Hello there." (semantic_chunk_text unit_embed "Hello there. Bye." 5 0.75%float) /\
  ((Z.of_nat (String.length "Hello there.") <= 5)%Z \/
   (In "Hello there." (sentences_of "Hello there. Bye.") /\
    (5 < Z.of_nat (String.length "Hello there."))%Z)).
Proof.
  assert (H : In "Hello there." (semantic_chunk_text unit_embed "Hello there. Bye." 5 0.75%float))
    by (vm_compute; left; reflexivity).
  split; [exact H|].
  exact (semantic_chunks_within_cap unit_embed "Hello there. Bye." 5 0.75%float _ H).
Defined.



(** Claim C8: [cosine_similarity] of a zero vector is NaN ([0.0 / 0.0]),
    not 0; [sim < similarity_threshold] is false on NaN, so
    [semantic_chunk_text] merges the two sentences, where a similarity of
    0 (orthogonal vectors) splits them.  The sibling
    [QueryOptimizer.extract_keywords] adds [1e-8] to the denominator and
    gets 0. *)
Theorem cosine_similarity_zero_vector_nan :
  PrimFloat.is_nan (cosine_similarity [0; 0]%float [1; 0]%float) = true /\
  PrimFloat.ltb (cosine_similarity [0; 0]%float [1; 0]%float) 0.75%float = false /\
  semantic_chunk_text zero_first_embed "Hi. Yo." 512 0.75%float = ["Hi. Yo."] /\
  cosine_similarity [0; 1]%float [1; 0]%float = 0%float /\
  semantic_chunk_text orthogonal_embed "Hi. Yo." 512 0.75%float = ["Hi."; "Yo."] /\
  Optimizer.token_similarity [0; 0]%float [1; 0]%float = 0%float.
Proof. vm_compute. repeat split. Qed.

End ChunkerProofs.

(* ------------------------------------------------------------------ *)
(** ** PDF parser: chunk numbering *)

Module ParserProofs.
Import Parser Props.

Lemma zseq_app (a : Z) (n m : nat) :
  zseq a (n + m) = (zseq a n ++ zseq (a + Z.of_nat n) m)%list.
Proof.
  revert a; induction n as [|n IH]; intros a; simpl.
  - now rewrite Z.add_0_r.
  - rewrite IH. do 3 f_equal. lia.
Qed.

Lemma zseq_bounds (a : Z) (n : nat) (x : Z) :
  In x (zseq a n) -> (a <= x < a + Z.of_nat n)%Z.
Proof.
  revert a; induction n as [|n IH]; intros a H; simpl in H; [contradiction|].
  destruct H as [<-|H]; [lia|]. apply IH in H. lia.
Qed.

Lemma zseq_sorted (a : Z) (n : nat) : Sorted Z.lt (zseq a n).
Proof.
  revert a; induction n as [|n IH]; intros a; simpl; constructor; [apply IH|].
  destruct n; simpl; constructor; lia.
Qed.

Lemma zseq_nodup (a : Z) (n : nat) : NoDup (zseq a n).
Proof.
  revert a; induction n as [|n IH]; intros a; simpl; constructor; [|apply IH].
  intros H. apply zseq_bounds in H. lia.
Qed.

Lemma fold_left_inv {A B} (P : B -> Prop) (f : B -> A -> B) (l : list A) (b : B) :
  P b -> (forall b a, P b -> P (f b a)) -> P (fold_left f l b).
Proof.
  revert b; induction l as [|a l IH]; intros b Hb Hf; simpl; [exact Hb|].
  apply IH; [apply Hf, Hb | exact Hf].
Qed.

(** [_split_text_into_chunks] numbers its chunks from [start_index] on. *)
Lemma split_indices (size : Z) (text title path : string) (sp : list string) (start : Z) :
  let cs := split_text_into_chunks size text title path sp start in
  map c_chunk_index cs = zseq start (length cs).
Proof.
  cbv zeta. unfold split_text_into_chunks.
  destruct (negb (Py.truthy text)); [reflexivity|].
  match goal with
  | |- context [fold_left ?f ?l ?b] =>
      pose proof (fold_left_inv
        (fun '(chunks, _, idx) =>
           map c_chunk_index chunks = zseq start (length chunks) /\
           idx = (start + Z.of_nat (length chunks))%Z) f l b) as G;
      destruct (fold_left f l b) as [[chunks cur] idx]
  end.
  destruct G as [Hmap Hidx].
  - simpl. split; [reflexivity | lia].
  - intros [[ch cu] ix] a [Hm Hi].
    destruct (_ <=? _)%Z; [now split|].
    destruct (Py.truthy (Py.strip cu)); [|now split].
    rewrite map_app, length_app, Hm, zseq_app. simpl. split; [congruence | lia].
  - destruct (Py.truthy (Py.strip cur)); [|exact Hmap].
    rewrite map_app, length_app, Hmap, zseq_app. simpl. congruence.
Qed.

(** Appending the chunks of a section keeps the numbering contiguous. *)
Lemma append_section (st : pstate) (size : Z) (title path : string) :
  indices_contiguous st ->
  let nc := split_text_into_chunks size (ps_text st) title path (ps_path st) (ps_index st) in
  map c_chunk_index (ps_chunks st ++ nc) = zseq 0 (length (ps_chunks st ++ nc)) /\
  (ps_index st + Z.of_nat (length nc))%Z = Z.of_nat (length (ps_chunks st ++ nc)).
Proof.
  intros [Hm Hi]. cbv zeta.
  rewrite map_app, split_indices, length_app, Hm, Hi, zseq_app. simpl.
  split; [reflexivity | lia].
Qed.

Lemma line_step_inv (env : parse_env) (st : pstate) (l : line) :
  indices_contiguous st -> indices_contiguous (line_step env st l).
Proof.
  intros H. unfold line_step.
  destruct (map _ (filter _ l)) as [|z zs]; [exact H|]. cbv zeta.
  destruct (body_style_size env <? _)%Z; [|exact H].
  destruct (Py.truthy (Py.strip (ps_text st))); [|exact H].
  apply (append_section st (chunk_size_chars env) (doc_title env) (doc_path env) H).
Qed.

Lemma block_step_inv (env : parse_env) (st : pstate) (b : pblock) :
  indices_contiguous st -> indices_contiguous (block_step env st b).
Proof.
  intros H. unfold block_step.
  destruct (b_in_header_footer b); [exact H|].
  destruct (b_lines b) as [ls|]; [|exact H].
  apply fold_left_inv; [exact H|]. intros st' l' H'. now apply line_step_inv.
Qed.

Lemma pages_step_inv (env : parse_env) (pages : list page) (st st' : pstate) :
  indices_contiguous st -> pages_step env pages st = Ok st' -> indices_contiguous st'.
Proof.
  revert st; induction pages as [|pg pages IH]; intros st H E; simpl in E.
  - now injection E as <-.
  - destruct pg as [blocks|]; [|discriminate].
    refine (IH _ _ E). apply fold_left_inv; [exact H|].
    intros st'' b H''. now apply block_step_inv.
Qed.

(** C5: when [_parse_with_styles] returns, the [chunk_index] values of its
    chunks, in order, are 0, 1, ..., n-1 across all sections and pages: they
    are strictly increasing and pairwise distinct. *)
Theorem parse_chunk_indices_contiguous (env : parse_env) (pages : list page) :
  match parse_with_styles env pages with
  | Ok chunks =>
      let idx := map c_chunk_index chunks in
      idx = zseq 0 (length chunks) /\ Sorted Z.lt idx /\ NoDup idx
  | Raise _ => True
  end.
Proof.
  unfold parse_with_styles.
  destruct (pages_step env pages (mkPState [] "" [] 0)) as [st|e] eqn:E; [|exact I].
  assert (H : indices_contiguous st).
  { refine (pages_step_inv env pages _ _ _ E). split; reflexivity. }
  assert (G : forall cs : list chunk, map c_chunk_index cs = zseq 0 (length cs) ->
            let idx := map c_chunk_index cs in
            idx = zseq 0 (length cs) /\ Sorted Z.lt idx /\ NoDup idx).
  { intros cs Hc. cbv zeta. rewrite Hc. split; [reflexivity|].
    split; [apply zseq_sorted | apply zseq_nodup]. }
  destruct (Py.truthy (Py.strip (ps_text st))); apply G; [|exact (proj1 H)].
  apply (append_section st (chunk_size_chars env) (doc_title env) (doc_path env) H).
Qed.

End ParserProofs.

(* ------------------------------------------------------------------ *)
(** ** Query optimizer *)

Module OptimizerProofs.
Import Optimizer Props.

Lemma string_of_cons_nonempty (l : list ascii) :
  l <> [] -> string_of_list_ascii l <> "".
Proof. destruct l; simpl; congruence. Qed.

(** [str.split()] yields no empty string. *)
Lemma split_ws_go_nonempty (s : string) (cur : list ascii) (t : string) :
  In t (Py.split_ws_go cur s) -> t <> "".
Proof.
  revert cur; induction s as [|c s IH]; intros cur H; simpl in H.
  - destruct cur as [|a cur]; [contradiction|].
    destruct H as [<-|[]]. apply string_of_cons_nonempty.
    simpl. intros E. now apply app_eq_nil in E as [_ E].
  - destruct (Py.is_space c).
    + destruct cur as [|a cur]; [exact (IH [] H)|].
      destruct H as [<-|H]; [|exact (IH [] H)].
      apply string_of_cons_nonempty. simpl.
      intros E. now apply app_eq_nil in E as [_ E].
    + exact (IH (c :: cur) H).
Qed.

Lemma split_ws_nonempty (s t : string) : In t (Py.split_ws s) -> t <> "".
Proof. apply split_ws_go_nonempty. Qed.

(** [" ".join(l)] is empty exactly when [l] is, for non-empty items. *)
Lemma join_space_empty (l : list string) :
  (forall t, In t l -> t <> "") -> (Py.join " " l = "" <-> l = []).
Proof.
  intros Hne. destruct l as [|x [|y l]]; simpl; split; intros H; try easy.
  - exfalso. exact (Hne x (or_introl eq_refl) H).
  - destruct x; discriminate.
Qed.

Lemma kept_tokens_in (o : optimizer) (q t : string) :
  In t (kept_tokens o q) -> In t (Py.split_ws q).
Proof. unfold kept_tokens. intros H. now apply filter_In in H as [H _]. Qed.

(** The surviving-token branch of [extract_keywords]. *)
Lemma extract_keywords_ranked (o : optimizer) (q : string) (t : string) (ts : list string) :
  kept_tokens o q = t :: ts ->
  exists ranked,
    Permutation ranked (t :: ts) /\
    extract_keywords o q = Py.take (top_k o) ranked.
Proof.
  intros E. unfold extract_keywords. rewrite E. cbv zeta.
  exists (map fst (Py.sort sim_before
    (map (fun t0 => (t0, token_similarity (encode o t0) (encode o q))) (t :: ts)))).
  split; [|unfold Py.take; rewrite length_map;
           destruct (0 <=? top_k o)%Z; symmetry; apply firstn_map].
  transitivity (map fst (map (fun t0 => (t0, token_similarity (encode o t0) (encode o q)))
                          (t :: ts))).
  - apply Permutation_map, SortFacts.sort_perm.
  - rewrite map_map. simpl. now rewrite map_id.
Qed.

(** C6 (amended): for [top_k >= 1], [optimize] returns the empty string
    exactly when the cleaned query has no whitespace-separated tokens; when
    no token survives the stopword and length filters, the keywords are the
    raw tokens of the cleaned query. *)
Theorem optimize_empty_iff_no_tokens (o : optimizer) (query : string) :
  (1 <= top_k o)%Z ->
  (kept_tokens o (clean query) = [] ->
     extract_keywords o (clean query) = Py.split_ws (clean query)) /\
  (optimize o query = "" <-> Py.split_ws (clean query) = []).
Proof.
  intros Hk. split.
  { intros E. unfold extract_keywords. now rewrite E. }
  unfold optimize.
  destruct (kept_tokens o (clean query)) as [|t ts] eqn:E.
  - unfold extract_keywords. rewrite E.
    apply join_space_empty, split_ws_nonempty.
  - destruct (extract_keywords_ranked o _ t ts E) as [ranked [Hp Hek]].
    rewrite Hek, SortFacts.take_nonneg by lia.
    assert (Hin : forall w, In w (firstn (Z.to_nat (top_k o)) ranked) ->
                    In w (Py.split_ws (clean query))).
    { intros w Hw. apply SortFacts.in_firstn in Hw.
      apply (Permutation_in _ Hp) in Hw. rewrite <- E in Hw.
      exact (kept_tokens_in _ _ _ Hw). }
    rewrite join_space_empty
      by (intros w Hw; exact (split_ws_nonempty _ _ (Hin w Hw))).
    split; intros H.
    + exfalso. destruct ranked as [|r rs].
      * apply Permutation_nil in Hp. discriminate.
      * destruct (Z.to_nat (top_k o)) eqn:Ek; [lia | discriminate].
    + exfalso. assert (Ht : In t (Py.split_ws (clean query))).
      { apply (kept_tokens_in o). rewrite E. now left. }
      rewrite H in Ht. exact Ht.
Qed.

(** C7 (amended): when no token survives the filters, [extract_keywords]
    returns every whitespace token of the query, whatever [top_k]; otherwise,
    for [top_k >= 0], it returns at most [top_k] strings, all of them
    surviving tokens. Duplicates are not removed in either case: the
    surviving-token result is a sub-multiset of the surviving tokens with
    [min(top_k, len(tokens))] elements, so all of them, repeats included,
    when [top_k >= len(tokens)]. *)
Theorem extract_keywords_bounded_when_filtered (o : optimizer) (query : string) :
  (kept_tokens o query = [] -> extract_keywords o query = Py.split_ws query) /\
  (kept_tokens o query <> [] -> (0 <= top_k o)%Z ->
     (Z.of_nat (length (extract_keywords o query)) <= top_k o)%Z /\
     (forall w, In w (extract_keywords o query) -> In w (kept_tokens o query)) /\
     Z.of_nat (length (extract_keywords o query)) =
       Z.min (top_k o) (Z.of_nat (length (kept_tokens o query))) /\
     (exists rest, Permutation (extract_keywords o query ++ rest) (kept_tokens o query)) /\
     ((Z.of_nat (length (kept_tokens o query)) <= top_k o)%Z ->
        Permutation (extract_keywords o query) (kept_tokens o query))).
Proof.
  split.
  { intros E. unfold extract_keywords. now rewrite E. }
  intros Hne Hk. destruct (kept_tokens o query) as [|t ts] eqn:E; [easy|].
  destruct (extract_keywords_ranked o _ t ts E) as [ranked [Hp Hek]].
  rewrite Hek, SortFacts.take_nonneg by exact Hk.
  pose proof (Permutation_length Hp) as Hl.
  split; [|split; [|split; [|split]]].
  - rewrite length_firstn. lia.
  - intros w Hw. apply SortFacts.in_firstn in Hw. exact (Permutation_in _ Hp Hw).
  - rewrite length_firstn, <- Hl. lia.
  - exists (skipn (Z.to_nat (top_k o)) ranked). now rewrite firstn_skipn.
  - intros Hle. rewrite firstn_all2 by (rewrite Hl; lia). exact Hp.
Qed.

(** C6, witness: the theorem at [top_k = 5] on a query with surviving tokens. *)
Lemma optimize_empty_iff_no_tokens_witness :
  (1 <= top_k nltk_optimizer)%Z /\
  (optimize nltk_optimizer "What is the Apple, Banana?" = "" <->
   Py.split_ws (clean "What is the Apple, Banana?") = []).
Proof.
  assert (Hk : (1 <= top_k nltk_optimizer)%Z) by (simpl; lia).
  split; [exact Hk|].
  exact (proj2 (optimize_empty_iff_no_tokens nltk_optimizer "What is the Apple, Banana?" Hk)).
Defined.

(** C6, counterexample: a query of punctuation only cleans to [""], which
    has no tokens, and [optimize] returns the empty string. *)
Lemma optimize_returns_empty :
  top_k nltk_optimizer = 5%Z /\ clean "?!" = "" /\ optimize nltk_optimizer "?!" = "".
Proof. vm_compute. repeat split. Qed.

(** C7, witness: the theorem on a query whose tokens survive the filters. *)
Lemma extract_keywords_bounded_when_filtered_witness :
  kept_tokens nltk_optimizer "apple banana" <> [] /\
  (0 <= top_k nltk_optimizer)%Z /\
  (Z.of_nat (length (extract_keywords nltk_optimizer "apple banana")) <= top_k nltk_optimizer)%Z.
Proof.
  assert (H1 : kept_tokens nltk_optimizer "apple banana" <> []) by (vm_compute; discriminate).
  assert (H2 : (0 <= top_k nltk_optimizer)%Z) by (simpl; lia).
  split; [exact H1|]. split; [exact H2|].
  exact (proj1 (proj2 (extract_keywords_bounded_when_filtered nltk_optimizer "apple banana") H1 H2)).
Defined.

(** C7, counterexample: a repeated token is returned twice, and a query of
    six two-letter tokens (none surviving the length filter) yields six
    keywords with [top_k = 5]. *)
Lemma extract_keywords_duplicates_and_overflow :
  top_k nltk_optimizer = 5%Z /\
  extract_keywords nltk_optimizer "apple apple" = ["apple"; "apple"] /\
  extract_keywords nltk_optimizer "ab cd ef gh ij kl" = ["ab"; "cd"; "ef"; "gh"; "ij"; "kl"].
Proof. vm_compute. repeat split. Qed.

End OptimizerProofs.

(* ------------------------------------------------------------------ *)
(** ** Words: [str.split()], [" ".join] and whitespace normalisation *)

Module WordFacts.
Import Props.

Lemma string_app_nil_r (s : string) : (s ++ "")%string = s.
Proof. induction s as [|c s IH]; simpl; congruence. Qed.

Lemma string_app_assoc (a b c : string) : ((a ++ b) ++ c)%string = (a ++ (b ++ c))%string.
Proof. induction a as [|x a IH]; simpl; congruence. Qed.

Lemma list_of_string_app (a b : string) :
  list_ascii_of_string (a ++ b) = (list_ascii_of_string a ++ list_ascii_of_string b)%list.
Proof. induction a as [|x a IH]; simpl; congruence. Qed.

Lemma string_of_list_app (a b : list ascii) :
  string_of_list_ascii (a ++ b) = (string_of_list_ascii a ++ string_of_list_ascii b)%string.
Proof. induction a as [|x a IH]; simpl; congruence. Qed.

Lemma is_space_blank : Py.is_space " "%char = true.
Proof. reflexivity. Qed.

(** A whitespace character separates: [(a + c + b).split() == a.split() + b.split()]. *)
Lemma split_ws_go_app_space (a b : string) (c : ascii) (cur : list ascii) :
  Py.is_space c = true ->
  Py.split_ws_go cur (a ++ String c b) = (Py.split_ws_go cur a ++ Py.split_ws b)%list.
Proof.
  intros Hc. revert cur; induction a as [|d a IH]; intros cur; simpl.
  - rewrite Hc. destruct cur; reflexivity.
  - destruct (Py.is_space d).
    + destruct cur; simpl; rewrite IH; reflexivity.
    + apply IH.
Qed.

Lemma split_ws_app_space (a b : string) (c : ascii) :
  Py.is_space c = true ->
  Py.split_ws (a ++ String c b) = (Py.split_ws a ++ Py.split_ws b)%list.
Proof. apply split_ws_go_app_space. Qed.

Lemma split_ws_space_cons (c : ascii) (s : string) :
  Py.is_space c = true -> Py.split_ws (String c s) = Py.split_ws s.
Proof. intros Hc. unfold Py.split_ws. simpl. now rewrite Hc. Qed.

Lemma split_ws_sep (a b : string) :
  Py.split_ws (a ++ " " ++ b) = (Py.split_ws a ++ Py.split_ws b)%list.
Proof. apply split_ws_app_space. reflexivity. Qed.

Lemma split_ws_all_space (w : list ascii) :
  Forall (fun c => Py.is_space c = true) w -> Py.split_ws (string_of_list_ascii w) = [].
Proof.
  induction 1 as [|c w Hc _ IH]; [reflexivity|].
  simpl. rewrite split_ws_space_cons by exact Hc. exact IH.
Qed.

Lemma split_ws_app_spaces (a : string) (w : list ascii) :
  Forall (fun c => Py.is_space c = true) w ->
  Py.split_ws (a ++ string_of_list_ascii w) = Py.split_ws a.
Proof.
  intros Hw. destruct Hw as [|c w Hc Hw].
  - simpl. now rewrite string_app_nil_r.
  - simpl. rewrite split_ws_app_space by exact Hc.
    rewrite (split_ws_all_space w Hw). apply app_nil_r.
Qed.

Lemma split_ws_lstrip (s : string) : Py.split_ws (Py.lstrip s) = Py.split_ws s.
Proof.
  induction s as [|c s IH]; [reflexivity|]. simpl.
  destruct (Py.is_space c) eqn:Hc; [|reflexivity].
  rewrite IH. symmetry. now apply split_ws_space_cons.
Qed.

Lemma lstrip_l_decomp (l : list ascii) :
  exists sp, Forall (fun c => Py.is_space c = true) sp /\ l = (sp ++ lstrip_l l)%list.
Proof.
  induction l as [|c l [sp [Hsp E]]]; [exists []; auto|]. simpl.
  destruct (Py.is_space c) eqn:Hc.
  - exists (c :: sp). split; [now constructor|]. simpl. now f_equal.
  - exists []. split; auto.
Qed.

Lemma split_ws_rstrip (s : string) : Py.split_ws (Py.rstrip s) = Py.split_ws s.
Proof.
  unfold Py.rstrip. rewrite StrFacts.lstrip_list, list_ascii_of_string_of_list_ascii.
  destruct (lstrip_l_decomp (rev (list_ascii_of_string s))) as [sp [Hsp E]].
  set (k := lstrip_l (rev (list_ascii_of_string s))) in *.
  assert (Es : s = (string_of_list_ascii (rev k) ++ string_of_list_ascii (rev sp))%string).
  { rewrite <- string_of_list_app, <- rev_app_distr, <- E, rev_involutive.
    symmetry. apply string_of_list_ascii_of_string. }
  transitivity (Py.split_ws (string_of_list_ascii (rev k) ++ string_of_list_ascii (rev sp))).
  - symmetry. apply split_ws_app_spaces. apply Forall_rev, Hsp.
  - now rewrite <- Es.
Qed.

(** [s.strip().split() == s.split()] *)
Lemma split_ws_strip (s : string) : Py.split_ws (Py.strip s) = Py.split_ws s.
Proof. unfold Py.strip. now rewrite split_ws_rstrip, split_ws_lstrip. Qed.

(** Collapsing whitespace runs keeps the words. *)
Lemma split_ws_go_collapse (s : string) (b : bool) (cur : list ascii) :
  (b = true -> cur = []) ->
  Py.split_ws_go cur (Parser.collapse_ws b s) = Py.split_ws_go cur s.
Proof.
  revert b cur; induction s as [|c s IH]; intros b cur Hb; [reflexivity|]. simpl.
  destruct (Py.is_space c) eqn:Hc.
  - destruct b.
    + rewrite (Hb eq_refl). now apply IH.
    + simpl. rewrite (IH true [] (fun _ => eq_refl)). reflexivity.
  - simpl. rewrite Hc. apply IH. discriminate.
Qed.

Lemma split_ws_collapse (s : string) :
  Py.split_ws (Parser.collapse_ws false s) = Py.split_ws s.
Proof. apply split_ws_go_collapse. discriminate. Qed.

(** [" ".join(l).split() == sum of the splits of the items] *)
Lemma split_ws_join (l : list string) :
  Py.split_ws (Py.join " " l) = concat (map Py.split_ws l).
Proof.
  induction l as [|x [|y l] IH].
  - reflexivity.
  - simpl. now rewrite app_nil_r.
  - change (Py.join " " (x :: y :: l)) with (x ++ " " ++ Py.join " " (y :: l))%string.
    rewrite split_ws_sep, IH. reflexivity.
Qed.

Lemma split_ws_go_words (s : string) (cur : list ascii) (w : string) :
  Forall (fun c => Py.is_space c = false) cur ->
  In w (Py.split_ws_go cur s) -> is_word w.
Proof.
  assert (Hw : forall cur : list ascii, cur <> [] ->
            Forall (fun c => Py.is_space c = false) cur ->
            is_word (string_of_list_ascii (rev cur))).
  { intros k Hk Hf. split.
    - apply OptimizerProofs.string_of_cons_nonempty. intros E.
      apply Hk. now apply (f_equal (@rev ascii)) in E; rewrite rev_involutive in E.
    - rewrite list_ascii_of_string_of_list_ascii. now apply Forall_rev. }
  revert cur; induction s as [|c s IH]; intros cur Hcur Hin; simpl in Hin.
  - destruct cur as [|a cur]; [contradiction|].
    destruct Hin as [<-|[]]. apply Hw; [discriminate|exact Hcur].
  - destruct (Py.is_space c) eqn:Hc.
    + destruct cur as [|a cur]; [exact (IH [] (Forall_nil _) Hin)|].
      destruct Hin as [<-|Hin]; [apply Hw; [discriminate|exact Hcur]|].
      exact (IH [] (Forall_nil _) Hin).
    + apply (IH (c :: cur)); [now constructor|exact Hin].
Qed.

(** The tokens of [str.split()] are words. *)
Lemma split_ws_words (s w : string) : In w (Py.split_ws s) -> is_word w.
Proof. apply split_ws_go_words. constructor. Qed.

Lemma split_ws_go_word (w : string) (cur : list ascii) :
  Forall (fun c => Py.is_space c = false) (list_ascii_of_string w) ->
  (cur <> [] \/ w <> "") ->
  Py.split_ws_go cur w = [string_of_list_ascii (rev cur ++ list_ascii_of_string w)].
Proof.
  revert cur; induction w as [|c w IH]; intros cur Hf Hne; simpl.
  - destruct cur as [|a cur]; [destruct Hne as [H|H]; contradiction|].
    now rewrite app_nil_r.
  - inversion Hf as [|? ? Hc Hw]; subst. rewrite Hc.
    destruct w as [|d w'].
    + reflexivity.
    + rewrite IH by (auto; right; discriminate). simpl. now rewrite <- app_assoc.
Qed.

Lemma split_ws_word (w : string) : is_word w -> Py.split_ws w = [w].
Proof.
  intros [Hne Hf]. unfold Py.split_ws.
  rewrite split_ws_go_word by auto. simpl. now rewrite string_of_list_ascii_of_string.
Qed.

(** Round trip: [" ".join(ws).split() == ws] for words [ws]. *)
Lemma split_ws_join_words (ws : list string) :
  Forall is_word ws -> Py.split_ws (Py.join " " ws) = ws.
Proof.
  intros Hws. rewrite split_ws_join.
  induction Hws as [|w ws Hw _ IH]; [reflexivity|].
  simpl. now rewrite split_ws_word, IH.
Qed.

Lemma split_ws_nil_spaces (s : string) (cur : list ascii) :
  Py.split_ws_go cur s = [] ->
  cur = [] /\ Forall (fun c => Py.is_space c = true) (list_ascii_of_string s).
Proof.
  revert cur; induction s as [|c s IH]; intros cur H; simpl in H.
  - destruct cur; [auto|discriminate].
  - destruct (Py.is_space c) eqn:Hc.
    + destruct cur; [|discriminate]. destruct (IH [] H) as [_ Hs].
      split; [reflexivity|]. simpl. now constructor.
    + destruct (IH (c :: cur) H) as [E _]. discriminate.
Qed.

Lemma lstrip_all_space (s : string) :
  Forall (fun c => Py.is_space c = true) (list_ascii_of_string s) -> Py.lstrip s = "".
Proof.
  induction s as [|c s IH]; intros H; [reflexivity|].
  inversion H as [|? ? Hc Hs]; subst. simpl. rewrite Hc. now apply IH.
Qed.

(** [s.split() == []] exactly when [s.strip() == ""]. *)
Lemma split_ws_nil_iff_strip (s : string) : Py.split_ws s = [] <-> Py.strip s = "".
Proof.
  split; intros H.
  - apply split_ws_nil_spaces in H as [_ H].
    unfold Py.strip. rewrite (lstrip_all_space s H). reflexivity.
  - rewrite <- split_ws_strip, H. reflexivity.
Qed.

End WordFacts.

(* ------------------------------------------------------------------ *)
(** ** Whitespace normalisation: [_normalize_text] and [clean_text] *)

Module NormalizeProofs.
Import Props WordFacts.

Lemma collapse_shape (s : string) (b : bool) (cur : list ascii) :
  (b = true -> cur = []) ->
  exists lead trail : list ascii,
    Forall (fun c => Py.is_space c = true) lead /\
    Forall (fun c => Py.is_space c = true) trail /\
    ((cur <> [] \/ b = true) -> lead = []) /\
    (string_of_list_ascii (rev cur) ++ Parser.collapse_ws b s)%string =
    (string_of_list_ascii lead ++ Py.join " " (Py.split_ws_go cur s)
       ++ string_of_list_ascii trail)%string.
Proof.
  revert b cur; induction s as [|c s IH]; intros b cur Hb.
  - exists [], []. split; [constructor|]. split; [constructor|]. split; [auto|].
    simpl. rewrite !string_app_nil_r. destruct cur as [|a cur]; reflexivity.
  - destruct (Py.is_space c) eqn:Hc.
    + destruct b.
      * rewrite (Hb eq_refl) in *.
        destruct (IH true [] (fun _ => eq_refl)) as [lead [trail [Hl [Ht [H0 E]]]]].
        exists lead, trail. split; [exact Hl|]. split; [exact Ht|]. split; [exact H0|].
        simpl. rewrite Hc. exact E.
      * destruct (IH true [] (fun _ => eq_refl)) as [lead [trail [Hl [Ht [H0 E]]]]].
        rewrite (H0 (or_intror eq_refl)) in E. simpl in E.
        assert (Ecol : Parser.collapse_ws false (String c s)
                       = String " " (Parser.collapse_ws true s)) by (simpl; now rewrite Hc).
        rewrite Ecol. simpl Py.split_ws_go. rewrite Hc.
        destruct cur as [|a cur].
        -- exists [" "%char], trail. split; [constructor; [reflexivity|constructor]|].
           split; [exact Ht|]. split; [intros [H|H]; [contradiction|discriminate]|].
           simpl. now rewrite E.
        -- destruct (Py.split_ws_go [] s) as [|w ws] eqn:EL.
           ++ exists [], (" "%char :: trail). split; [constructor|].
              split; [constructor; [reflexivity|exact Ht]|]. split; [auto|].
              simpl in E |- *. rewrite E. reflexivity.
           ++ exists [], trail. split; [constructor|]. split; [exact Ht|]. split; [auto|].
              simpl in E. rewrite E.
              change (Py.join " " (string_of_list_ascii (rev (a :: cur)) :: w :: ws))
                with (string_of_list_ascii (rev (a :: cur)) ++ " " ++ Py.join " " (w :: ws))%string.
              simpl string_of_list_ascii at 1.
              rewrite !string_app_assoc. reflexivity.
    + destruct (IH false (c :: cur) (fun H => ltac:(discriminate H)))
        as [lead [trail [Hl [Ht [H0 E]]]]].
      assert (Hne : c :: cur <> []) by discriminate.
      rewrite (H0 (or_introl Hne)) in E.
      exists [], trail. split; [constructor|]. split; [exact Ht|]. split; [auto|].
      assert (Ecol : Parser.collapse_ws b (String c s)
                     = String c (Parser.collapse_ws false s)) by (simpl; now rewrite Hc).
      rewrite Ecol. simpl Py.split_ws_go. rewrite Hc. rewrite <- E.
      simpl rev. rewrite string_of_list_app, string_app_assoc. reflexivity.
Qed.

Lemma lstrip_l_spaces_app (sp l : list ascii) :
  Forall (fun c => Py.is_space c = true) sp -> lstrip_l (sp ++ l) = lstrip_l l.
Proof. induction 1 as [|c sp Hc _ IH]; [reflexivity|]. simpl. now rewrite Hc. Qed.

Lemma lstrip_l_all_spaces (sp : list ascii) :
  Forall (fun c => Py.is_space c = true) sp -> lstrip_l sp = [].
Proof. intros H. rewrite <- (app_nil_r sp). now rewrite lstrip_l_spaces_app. Qed.

Lemma word_trimmed (w : string) : is_word w -> trimmed (list_ascii_of_string w) /\ list_ascii_of_string w <> [].
Proof.
  intros [Hne Hf]. assert (Hl : list_ascii_of_string w <> []).
  { intros E. apply Hne. rewrite <- (string_of_list_ascii_of_string w), E. reflexivity. }
  split; [|exact Hl]. right. split.
  - destruct (list_ascii_of_string w) as [|c t]; [contradiction|].
    inversion Hf; subst. eauto.
  - destruct (exists_last Hl) as [t [c E]]. rewrite E in Hf |- *.
    apply Forall_app in Hf as [_ Hc]. inversion Hc; subst. eauto.
Qed.

Lemma join_words_trimmed (ws : list string) :
  Forall is_word ws -> trimmed (list_ascii_of_string (Py.join " " ws)).
Proof.
  induction 1 as [|w ws Hw Hws IH]; [now left|].
  destruct (word_trimmed w Hw) as [[E|[[c [t [Ec Hc]]] _]] Hl]; [contradiction|].
  destruct ws as [|v ws].
  - exact (proj1 (word_trimmed w Hw)).
  - right. change (Py.join " " (w :: v :: ws))
                  with (w ++ " " ++ Py.join " " (v :: ws))%string.
    rewrite !list_of_string_app. split.
    + rewrite Ec. exists c, (t ++ list_ascii_of_string " " ++
                              list_ascii_of_string (Py.join " " (v :: ws)))%list. auto.
    + destruct IH as [E|[_ [t' [c' [E Hc']]]]].
      * inversion Hws as [|? ? Hv _]; subst.
        exfalso. destruct (word_trimmed v Hv) as [_ Hv'].
        destruct ws as [|u ws]; [simpl in E; contradiction|].
        change (Py.join " " (v :: u :: ws)) with (v ++ " " ++ Py.join " " (u :: ws))%string in E.
        rewrite list_of_string_app in E. apply app_eq_nil in E as [E _]. contradiction.
      * rewrite E. exists (list_ascii_of_string w ++ list_ascii_of_string " " ++ t')%list, c'.
        rewrite <- !app_assoc. auto.
Qed.

Lemma strip_padded (lead trail : list ascii) (j : string) :
  Forall (fun c => Py.is_space c = true) lead ->
  Forall (fun c => Py.is_space c = true) trail ->
  trimmed (list_ascii_of_string j) ->
  Py.strip (string_of_list_ascii lead ++ j ++ string_of_list_ascii trail) = j.
Proof.
  intros Hl Ht Hj.
  rewrite <- (string_of_list_ascii_of_string (Py.strip _)), StrFacts.strip_list.
  rewrite !list_of_string_app, !list_ascii_of_string_of_list_ascii.
  rewrite lstrip_l_spaces_app by exact Hl.
  destruct Hj as [E|[[c [t [E1 Hc]]] [t' [c' [E2 Hc']]]]].
  - rewrite E. simpl. rewrite (lstrip_l_all_spaces trail Ht). simpl.
    rewrite <- (string_of_list_ascii_of_string j), E. reflexivity.
  - assert (L1 : lstrip_l (list_ascii_of_string j ++ trail) = (list_ascii_of_string j ++ trail)%list)
      by (rewrite E1; simpl; now rewrite Hc).
    rewrite L1, rev_app_distr, E2, rev_app_distr.
    rewrite lstrip_l_spaces_app by (apply Forall_rev, Ht).
    simpl. rewrite Hc'. simpl. rewrite rev_involutive, <- E2.
    apply string_of_list_ascii_of_string.
Qed.

(** [_normalize_text] of the parser and [clean_text] of the helpers,
    [re.sub(r'\s+', ' ', text).strip()], both equal
    [" ".join(text.split())]. *)
Theorem normalize_text_is_join_split (text : string) :
  Parser.normalize_text text = Py.join " " (Py.split_ws text) /\
  Helpers.clean_text text = Py.join " " (Py.split_ws text).
Proof.
  assert (H : Py.strip (Parser.collapse_ws false text) = Py.join " " (Py.split_ws text)).
  { destruct (collapse_shape text false [] (fun H => ltac:(discriminate H)))
      as [lead [trail [Hl [Ht [_ E]]]]].
    simpl in E. rewrite E. apply strip_padded; [exact Hl|exact Ht|].
    apply join_words_trimmed. apply Forall_forall. intros w Hw.
    exact (split_ws_words _ _ Hw). }
  split; exact H.
Qed.

Lemma split_ws_words_all (s : string) : Forall is_word (Py.split_ws s).
Proof. apply Forall_forall. intros w Hw. exact (split_ws_words _ _ Hw). Qed.

(** [_normalize_text] keeps the words of its input and is idempotent. *)
Theorem normalize_text_idempotent (text : string) :
  Py.split_ws (Parser.normalize_text text) = Py.split_ws text /\
  Parser.normalize_text (Parser.normalize_text text) = Parser.normalize_text text.
Proof.
  assert (Hw : Py.split_ws (Parser.normalize_text text) = Py.split_ws text).
  { rewrite (proj1 (normalize_text_is_join_split text)).
    apply split_ws_join_words, split_ws_words_all. }
  split; [exact Hw|].
  rewrite (proj1 (normalize_text_is_join_split (Parser.normalize_text text))), Hw.
  symmetry. apply normalize_text_is_join_split.
Qed.

End NormalizeProofs.

(* ------------------------------------------------------------------ *)
(** ** Sentence splitting and chunking keep every word *)

Module SplitProofs.
Import Props WordFacts.

Lemma mode_of_not_insep (c : ascii) : Split.mode_of c <> Split.InSep.
Proof. unfold Split.mode_of. destruct (Split.is_punct c); discriminate. Qed.

Lemma string_snoc (cur : list ascii) (c : ascii) (s : string) :
  (string_of_list_ascii (rev (c :: cur)) ++ s)%string =
  (string_of_list_ascii (rev cur) ++ String c s)%string.
Proof. simpl. rewrite string_of_list_app, string_app_assoc. reflexivity. Qed.

Section Sep.
Variable is_sep : ascii -> bool.
Hypothesis sep_space : forall c, is_sep c = true -> Py.is_space c = true.

Lemma split_go_words (s : string) (m : Split.mode) (cur : list ascii) :
  (m = Split.InSep -> cur = []) ->
  concat (map Py.split_ws (Split.split_go is_sep m cur s)) =
  Py.split_ws (string_of_list_ascii (rev cur) ++ s).
Proof.
  revert m cur; induction s as [|c s IH]; intros m cur Hm.
  - simpl. now rewrite app_nil_r, string_app_nil_r.
  - assert (Hnext : concat (map Py.split_ws
              (Split.split_go is_sep (Split.mode_of c) (c :: cur) s)) =
            Py.split_ws (string_of_list_ascii (rev cur) ++ String c s)).
    { rewrite IH by (intros E; now apply mode_of_not_insep in E).
      now rewrite string_snoc. }
    destruct m; simpl Split.split_go.
    + exact Hnext.
    + destruct (is_sep c) eqn:Hs; [|exact Hnext].
      simpl. rewrite (IH Split.InSep [] (fun _ => eq_refl)).
      simpl. symmetry. apply split_ws_app_space, sep_space, Hs.
    + rewrite (Hm eq_refl) in *. simpl.
      destruct (is_sep c) eqn:Hs.
      * rewrite (IH Split.InSep [] (fun _ => eq_refl)). simpl.
        symmetry. apply split_ws_space_cons, sep_space, Hs.
      * rewrite IH by (intros E; now apply mode_of_not_insep in E). reflexivity.
Qed.

(** The pieces of [re.split(r'(?<=[.!?])X+', text)], for a whitespace
    class [X], hold the words of [text] in order. *)
Lemma re_split_words (text : string) :
  concat (map Py.split_ws (Split.re_split is_sep text)) = Py.split_ws text.
Proof. unfold Split.re_split. rewrite split_go_words by discriminate. reflexivity. Qed.

End Sep.

Lemma is_blank_space (c : ascii) : Split.is_blank c = true -> Py.is_space c = true.
Proof. unfold Split.is_blank. intros H. apply Ascii.eqb_eq in H. now subst. Qed.

Lemma strip_empty_words (s : string) : Py.truthy (Py.strip s) = false -> Py.split_ws s = [].
Proof.
  intros H. apply split_ws_nil_iff_strip.
  destruct (Py.strip s); [reflexivity|discriminate].
Qed.

Lemma strip_nonempty_words (s : string) : Py.truthy (Py.strip s) = true -> Py.split_ws s <> [].
Proof.
  intros H E. apply split_ws_nil_iff_strip in E. rewrite E in H. discriminate.
Qed.

Lemma collapse_length (b : bool) (s : string) :
  String.length (Parser.collapse_ws b s) <= String.length s.
Proof.
  revert b; induction s as [|c s IH]; intros b; simpl; [lia|].
  pose proof (IH true); pose proof (IH false).
  destruct (Py.is_space c); [destruct b|]; simpl; lia.
Qed.

Lemma normalize_length (s : string) :
  String.length (Parser.normalize_text s) <= String.length s.
Proof.
  unfold Parser.normalize_text.
  pose proof (StrFacts.strip_length (Parser.collapse_ws false s)).
  pose proof (collapse_length false s). lia.
Qed.

Lemma join_words_nonempty (ws : list string) :
  Forall is_word ws -> ws <> [] -> Py.join " " ws <> "".
Proof.
  intros Hws Hne E. apply Hne.
  refine (proj1 (OptimizerProofs.join_space_empty ws _) E).
  intros t Ht. rewrite Forall_forall in Hws. exact (proj1 (Hws t Ht)).
Qed.

Lemma normalize_nonempty (s : string) :
  Py.truthy (Py.strip s) = true -> Parser.normalize_text s <> "".
Proof.
  intros H. rewrite (proj1 (NormalizeProofs.normalize_text_is_join_split s)).
  apply join_words_nonempty; [apply NormalizeProofs.split_ws_words_all|].
  now apply strip_nonempty_words.
Qed.

(** The sentences of the semantic chunker hold the words of the text. *)
Lemma sentences_words (text : string) :
  concat (map Py.split_ws (Chunker.sentences_of text)) = Py.split_ws text.
Proof.
  unfold Chunker.sentences_of.
  rewrite <- (re_split_words Split.is_blank is_blank_space text).
  induction (Split.re_split Split.is_blank text) as [|p ps IH]; [reflexivity|].
  simpl. destruct (Py.truthy (Py.strip p)) eqn:Hp; simpl.
  - now rewrite split_ws_strip, IH.
  - now rewrite IH, (strip_empty_words p Hp).
Qed.

Lemma sentences_nonempty (text s : string) :
  In s (Chunker.sentences_of text) -> Py.split_ws s <> [] /\ Py.strip s = s.
Proof.
  unfold Chunker.sentences_of. intros H.
  apply in_map_iff in H as [p [<- Hp]]. apply filter_In in Hp as [_ Hp].
  split; [|apply StrFacts.strip_idem].
  rewrite split_ws_strip. now apply strip_nonempty_words.
Qed.

Lemma strip_chunk_ok (cur : string) :
  Py.split_ws cur <> [] ->
  Py.strip cur <> "" /\ Py.strip (Py.strip cur) = Py.strip cur.
Proof.
  intros H. split; [|apply StrFacts.strip_idem].
  intros E. apply H. now apply split_ws_nil_iff_strip.
Qed.

Lemma chunk_fold_words (embed : string -> list float) (max_tokens : Z)
    (thr : float) (rest : list string) :
  forall chunks cur v,
  let '(chunks', cur', _) :=
    fold_left (Chunker.chunk_step embed max_tokens thr) rest (chunks, cur, v) in
  (concat (map Py.split_ws chunks') ++ Py.split_ws cur')%list =
  (concat (map Py.split_ws chunks) ++ Py.split_ws cur ++ concat (map Py.split_ws rest))%list.
Proof.
  induction rest as [|s rest IH]; intros chunks cur v; simpl.
  - now rewrite app_nil_r.
  - unfold Chunker.chunk_step at 1.
    destruct (PrimFloat.ltb _ _ || _)%bool.
    + specialize (IH (chunks ++ [Py.strip cur])%list s (embed s)).
      destruct (fold_left _ rest _) as [[ch' cur'] v']. rewrite IH.
      rewrite map_app, concat_app. simpl. rewrite split_ws_strip, !app_nil_r, <- !app_assoc.
      reflexivity.
    + specialize (IH chunks (cur ++ " " ++ s)%string (embed s)).
      destruct (fold_left _ rest _) as [[ch' cur'] v']. rewrite IH.
      rewrite split_ws_sep, <- !app_assoc. reflexivity.
Qed.

Lemma chunk_fold_nonempty (embed : string -> list float) (max_tokens : Z)
    (thr : float) (rest : list string) :
  forall chunks cur v,
  (forall s, In s rest -> Py.split_ws s <> []) ->
  (forall c, In c chunks -> c <> "" /\ Py.strip c = c) ->
  Py.split_ws cur <> [] ->
  let '(chunks', cur', _) :=
    fold_left (Chunker.chunk_step embed max_tokens thr) rest (chunks, cur, v) in
  (forall c, In c chunks' -> c <> "" /\ Py.strip c = c) /\ Py.split_ws cur' <> [].
Proof.
  induction rest as [|s rest IH]; intros chunks cur v Hrest Hch Hcur; simpl; [easy|].
  unfold Chunker.chunk_step at 1.
  destruct (PrimFloat.ltb _ _ || _)%bool.
  - apply IH.
    + intros x Hx. apply Hrest. now right.
    + intros c Hc. apply in_app_or in Hc as [Hc|[<-|[]]]; [now apply Hch|].
      now apply strip_chunk_ok.
    + apply Hrest. now left.
  - apply IH; [intros x Hx; apply Hrest; now right|exact Hch|].
    rewrite ?split_ws_sep, ?split_ws_app_space by reflexivity.
    intros E. apply app_eq_nil in E as [E _]. contradiction.
Qed.

(** [semantic_chunk_text] loses no word and reorders none: the words of
    its chunks, in order, are the words of the text; every chunk is
    non-empty and already stripped. *)
Theorem semantic_chunks_keep_words (embed : string -> list float) (text : string)
    (max_tokens : Z) (similarity_threshold : float) :
  let chunks := Chunker.semantic_chunk_text embed text max_tokens similarity_threshold in
  concat (map Py.split_ws chunks) = Py.split_ws text /\
  (forall c, In c chunks -> c <> "" /\ Py.strip c = c).
Proof.
  cbv zeta. unfold Chunker.semantic_chunk_text.
  pose proof (sentences_words text) as Hw.
  pose proof (sentences_nonempty text) as Hne.
  destruct (Chunker.sentences_of text) as [|s0 rest] eqn:Es.
  - split; [exact Hw|intros c []].
  - pose proof (chunk_fold_words embed max_tokens similarity_threshold rest [] s0 (embed s0)) as G.
    pose proof (chunk_fold_nonempty embed max_tokens similarity_threshold rest [] s0 (embed s0)) as N.
    destruct (fold_left _ rest _) as [[chunks cur] v].
    destruct N as [Hch Hcur].
    + intros s Hs. apply Hne. now right.
    + intros c [].
    + apply Hne. now left.
    + simpl in Hw, G. destruct (Py.truthy (Py.strip cur)) eqn:Ec.
      * split.
        -- rewrite map_app, concat_app. simpl. rewrite split_ws_strip, app_nil_r, G. exact Hw.
        -- intros c Hc. apply in_app_or in Hc as [Hc|[<-|[]]]; [now apply Hch|].
           now apply strip_chunk_ok.
      * split; [|exact Hch].
        rewrite <- Hw, <- G, (strip_empty_words cur Ec). symmetry. apply app_nil_r.
Qed.

Lemma fold_left_inv_rest {A B} (P : B -> list A -> Prop) (f : B -> A -> B) (l : list A) (b : B) :
  P b l -> (forall b a r, P b (a :: r) -> P (f b a) r) -> P (fold_left f l b) [].
Proof.
  revert b; induction l as [|a l IH]; intros b Hb Hf; simpl; [exact Hb|].
  apply IH; [apply Hf, Hb | exact Hf].
Qed.

Lemma fold_left_inv_in {A B} (P : B -> Prop) (f : B -> A -> B) (l : list A) (b : B) :
  P b -> (forall b a, In a l -> P b -> P (f b a)) -> P (fold_left f l b).
Proof.
  revert b; induction l as [|a l IH]; intros b Hb Hf; simpl; [exact Hb|].
  apply IH; [apply Hf; [now left|exact Hb] | intros b' a' Ha'; apply Hf; now right].
Qed.

(** A packed text is empty, within one character of the bound (the
    joining space), or a single sentence: its normalised form is then too. *)
Lemma pack_bound (norm : string -> string)
    (norm_len : forall s, String.length (norm s) <= String.length s)
    (pieces : list string) (bound : Z) (cur : string) :
  (cur = "" \/ (Z.of_nat (String.length cur) <= bound + 1)%Z \/ In cur pieces) ->
  cur <> "" ->
  ((Z.of_nat (String.length (norm cur)) <= bound + 1)%Z \/
   exists p, In p pieces /\ norm cur = norm p).
Proof.
  intros [E|[H|H]] Hne; [contradiction| |].
  - left. pose proof (norm_len cur). lia.
  - right. now exists cur.
Qed.

Lemma string_length_app (a b : string) :
  String.length (a ++ b) = String.length a + String.length b.
Proof. induction a as [|c a IH]; simpl; lia. Qed.

Lemma pack_merge (bound : Z) (cur s : string) :
  (Z.of_nat (String.length cur + String.length s) <=? bound)%Z = true ->
  (Z.of_nat (String.length (cur ++ " " ++ s)) <= bound + 1)%Z.
Proof.
  intros H. apply Z.leb_le in H. rewrite string_length_app. simpl. lia.
Qed.

(** [split_text] of [text_splitter.py] loses no word and reorders none;
    each chunk is non-empty and stripped, and is at most one character
    over [max_tokens] unless it is a single sentence of the text. *)
Theorem split_text_keeps_words (text : string) (max_tokens : Z) :
  let cs := TextSplitter.split_text text max_tokens in
  concat (map Py.split_ws cs) = Py.split_ws text /\
  (forall c, In c cs ->
     c <> "" /\ Py.strip c = c /\
     ((Z.of_nat (String.length c) <= max_tokens + 1)%Z \/
      exists p, In p (Split.re_split Split.is_blank text) /\ c = Py.strip p)).
Proof.
  cbv zeta. unfold TextSplitter.split_text.
  set (pieces := Split.re_split Split.is_blank text).
  match goal with
  | |- context [fold_left ?f ?l ?b] =>
      pose proof (fold_left_inv_rest
        (fun '(chunks, cur) r =>
           (concat (map Py.split_ws chunks) ++ Py.split_ws cur ++
            concat (map Py.split_ws r))%list = Py.split_ws text) f l b) as G;
      pose proof (fold_left_inv_in
        (fun '(chunks, cur) =>
           (forall c, In c chunks ->
              c <> "" /\ Py.strip c = c /\
              ((Z.of_nat (String.length c) <= max_tokens + 1)%Z \/
               exists p, In p pieces /\ c = Py.strip p)) /\
           (cur = "" \/ (Z.of_nat (String.length cur) <= max_tokens + 1)%Z \/
            In cur pieces)) f l b) as N;
      destruct (fold_left f l b) as [chunks cur]
  end.
  assert (Good : forall cur, Py.truthy (Py.strip cur) = true ->
            (cur = "" \/ (Z.of_nat (String.length cur) <= max_tokens + 1)%Z \/
             In cur pieces) ->
            Py.strip cur <> "" /\ Py.strip (Py.strip cur) = Py.strip cur /\
            ((Z.of_nat (String.length (Py.strip cur)) <= max_tokens + 1)%Z \/
             exists p, In p pieces /\ Py.strip cur = Py.strip p)).
  { intros cu Ht Hc.
    assert (Hne : Py.strip cu <> "") by (intros E; rewrite E in Ht; discriminate).
    split; [exact Hne|split; [apply StrFacts.strip_idem|]].
    apply (pack_bound Py.strip StrFacts.strip_length pieces max_tokens cu Hc).
    intros E. apply Hne. now rewrite E. }
  match type of G with _ -> _ -> ?C => assert (Gw : C) end.
  { apply G.
    - simpl. exact (re_split_words Split.is_blank is_blank_space text).
    - intros [ch cu] a r H. cbn beta iota.
      destruct (_ <=? _)%Z.
      + rewrite split_ws_sep, <- H. simpl. now rewrite <- !app_assoc.
      + destruct (Py.truthy (Py.strip cu)) eqn:Ec.
        * rewrite <- H, map_app, concat_app. simpl.
          now rewrite split_ws_strip, app_nil_r, <- !app_assoc.
        * rewrite <- H, (strip_empty_words cu Ec). reflexivity. }
  clear G.
  destruct N as [Nch Ncur].
    + split; [intros c []|now left].
    + intros [ch cu] a Ha [Hch Hcu]. cbn beta iota.
      destruct (_ <=? _)%Z eqn:Hle.
      * split; [exact Hch|]. right; left. now apply pack_merge.
      * split; [|right; right; exact Ha].
        destruct (Py.truthy (Py.strip cu)) eqn:Ec; [|exact Hch].
        intros c Hc. apply in_app_or in Hc as [Hc|[<-|[]]]; [now apply Hch|].
        now apply Good.
    + simpl in Gw. rewrite app_nil_r in Gw.
      destruct (Py.truthy (Py.strip cur)) eqn:Ec.
      * split.
        -- rewrite map_app, concat_app. simpl. now rewrite split_ws_strip, app_nil_r.
        -- intros c Hc. apply in_app_or in Hc as [Hc|[<-|[]]]; [now apply Nch|].
           now apply Good.
      * split; [|exact Nch].
        rewrite <- Gw, (strip_empty_words cur Ec). symmetry. apply app_nil_r.
Qed.

(** [_split_text_into_chunks] loses no word of the section text and
    reorders none; every chunk text is non-empty and normalised, carries
    the given title, path and [" > "]-joined section path, and is at most
    one character over [chunk_size_chars] unless it is one sentence. *)
Theorem split_text_into_chunks_keeps_words (size : Z) (text title path : string)
    (sp : list string) (start : Z) :
  let cs := Parser.split_text_into_chunks size text title path sp start in
  concat (map (fun c => Py.split_ws (Parser.c_text c)) cs) = Py.split_ws text /\
  (forall c, In c cs ->
     Parser.c_text c <> "" /\
     Parser.normalize_text (Parser.c_text c) = Parser.c_text c /\
     Parser.c_doc_title c = title /\ Parser.c_path c = path /\
     Parser.c_section_path c = Py.join " > " sp /\
     ((Z.of_nat (String.length (Parser.c_text c)) <= size + 1)%Z \/
      exists p, In p (Split.re_split Py.is_space text) /\
                Parser.c_text c = Parser.normalize_text p)).
Proof.
  cbv zeta. unfold Parser.split_text_into_chunks.
  destruct (negb (Py.truthy text)) eqn:Et.
  - split; [|intros c []].
    destruct text; [reflexivity|discriminate].
  - set (pieces := Split.re_split Py.is_space text).
    match goal with
    | |- context [fold_left ?f ?l ?b] =>
        pose proof (fold_left_inv_rest
          (fun '(chunks, cur, _) r =>
             (concat (map (fun c => Py.split_ws (Parser.c_text c)) chunks) ++
              Py.split_ws cur ++ concat (map Py.split_ws r))%list = Py.split_ws text)
          f l b) as G;
        pose proof (fold_left_inv_in
          (fun '(chunks, cur, _) =>
             (forall c, In c chunks ->
                Parser.c_text c <> "" /\
                Parser.normalize_text (Parser.c_text c) = Parser.c_text c /\
                Parser.c_doc_title c = title /\ Parser.c_path c = path /\
                Parser.c_section_path c = Py.join " > " sp /\
                ((Z.of_nat (String.length (Parser.c_text c)) <= size + 1)%Z \/
                 exists p, In p pieces /\ Parser.c_text c = Parser.normalize_text p)) /\
             (cur = "" \/ (Z.of_nat (String.length cur) <= size + 1)%Z \/
              In cur pieces)) f l b) as N;
        destruct (fold_left f l b) as [[chunks cur] idx]
    end.
    assert (Good : forall cur idx, Py.truthy (Py.strip cur) = true ->
              (cur = "" \/ (Z.of_nat (String.length cur) <= size + 1)%Z \/
               In cur pieces) ->
              let c := Parser.make_chunk cur title path sp idx in
              Parser.c_text c <> "" /\
              Parser.normalize_text (Parser.c_text c) = Parser.c_text c /\
              Parser.c_doc_title c = title /\ Parser.c_path c = path /\
              Parser.c_section_path c = Py.join " > " sp /\
              ((Z.of_nat (String.length (Parser.c_text c)) <= size + 1)%Z \/
               exists p, In p pieces /\ Parser.c_text c = Parser.normalize_text p)).
    { intros cu ix Ht Hc. cbv zeta. simpl.
      pose proof (normalize_nonempty cu Ht) as Hne.
      split; [exact Hne|].
      split; [apply (proj2 (NormalizeProofs.normalize_text_idempotent cu))|].
      split; [reflexivity|split; [reflexivity|split; [reflexivity|]]].
      apply (pack_bound Parser.normalize_text normalize_length pieces size cu Hc).
      intros E. apply Hne. now rewrite E. }
    match type of G with _ -> _ -> ?C => assert (Gw : C) end.
    { apply G.
      - simpl. exact (re_split_words Py.is_space (fun c H => H) text).
      - intros [[ch cu] ix] a r H. cbn beta iota.
        destruct (_ <=? _)%Z.
        + rewrite split_ws_sep, <- H. simpl. now rewrite <- !app_assoc.
        + destruct (Py.truthy (Py.strip cu)) eqn:Ec.
          * rewrite <- H, map_app, concat_app. simpl.
            rewrite (proj1 (NormalizeProofs.normalize_text_idempotent cu)).
            now rewrite app_nil_r, <- !app_assoc.
          * rewrite <- H, (strip_empty_words cu Ec). reflexivity. }
    clear G.
    destruct N as [Nch Ncur].
    + split; [intros c []|now left].
    + intros [[ch cu] ix] a Ha [Hch Hcu]. cbn beta iota.
      destruct (_ <=? _)%Z eqn:Hle.
      * split; [exact Hch|]. right; left. now apply pack_merge.
      * destruct (Py.truthy (Py.strip cu)) eqn:Ec;
          (split; [|right; right; exact Ha]); [|exact Hch].
        intros c Hc. apply in_app_or in Hc as [Hc|[<-|[]]]; [now apply Hch|].
        now apply Good.
    + simpl in Gw. rewrite app_nil_r in Gw.
      destruct (Py.truthy (Py.strip cur)) eqn:Ec.
      * split.
        -- rewrite map_app, concat_app. simpl.
           now rewrite (proj1 (NormalizeProofs.normalize_text_idempotent cur)), app_nil_r.
        -- intros c Hc. apply in_app_or in Hc as [Hc|[<-|[]]]; [now apply Nch|].
           now apply Good.
      * split; [|exact Nch].
        rewrite <- Gw, (strip_empty_words cur Ec). symmetry. apply app_nil_r.
Qed.

End SplitProofs.

(* ------------------------------------------------------------------ *)
(** ** Shape of the parser's chunks, its page choice, title and styles *)

Module ParseShapeProofs.
Import Parser.

Lemma heading_level_le (sizes : list Z) (z : Z) :
  heading_level_of sizes z <= length sizes.
Proof.
  induction sizes as [|s sizes IH]; simpl; [lia|].
  destruct (Z.eqb s z); lia.
Qed.

Section Env.
Variable env : parse_env.

(** What [_parse_with_styles] keeps true of its state: every chunk has a
    non-empty normalised text, the document's title and path, and a section
    path of normalised headings no deeper than the heading styles plus one;
    the current section path has the same bounds. *)
Local Abbreviation path_ok p :=
  (length p <= length (heading_styles env) + 1 /\
   Forall (fun h => normalize_text h = h) p).

Local Abbreviation chunk_good c :=
  (c_text c <> "" /\ normalize_text (c_text c) = c_text c /\
   c_doc_title c = doc_title env /\ c_path c = doc_path env /\
   exists p, path_ok p /\ c_section_path c = Py.join " > " p).

Lemma path_ok_firstn (n : nat) (p : list string) (h : string) :
  n <= length (heading_styles env) ->
  Forall (fun h => normalize_text h = h) p ->
  normalize_text h = h ->
  path_ok (firstn n p ++ [h])%list.
Proof.
  intros Hn Hp Hh. split.
  - rewrite length_app, length_firstn. simpl. lia.
  - apply Forall_app. split; [|now constructor].
    rewrite <- (firstn_skipn n p) in Hp. now apply Forall_app in Hp as [Hp _].
Qed.

Lemma section_chunks_good (st : pstate) :
  path_ok (ps_path st) ->
  forall c, In c (split_text_into_chunks (chunk_size_chars env) (ps_text st)
                   (doc_title env) (doc_path env) (ps_path st) (ps_index st)) ->
  chunk_good c.
Proof.
  intros Hp c Hc.
  destruct (proj2 (SplitProofs.split_text_into_chunks_keeps_words _ _ _ _ _ _) c Hc)
    as [H1 [H2 [H3 [H4 [H5 _]]]]].
  repeat (split; [assumption|]). now exists (ps_path st).
Qed.

Lemma line_step_good (st : pstate) (l : line) :
  (forall c, In c (ps_chunks st) -> chunk_good c) -> path_ok (ps_path st) ->
  (forall c, In c (ps_chunks (line_step env st l)) -> chunk_good c) /\
  path_ok (ps_path (line_step env st l)).
Proof.
  intros Hch Hp. unfold line_step.
  destruct (map _ (filter _ l)) as [|z zs]; [split; assumption|]. cbv zeta.
  destruct (body_style_size env <? _)%Z; [|split; assumption].
  match goal with
  | |- context [let '(_, _) := ?x in _] => destruct x as [chunks ci] eqn:Ex
  end.
  assert (Hc : forall c, In c chunks -> chunk_good c).
  { destruct (Py.truthy (Py.strip (ps_text st))); injection Ex as <- <-; [|exact Hch].
    intros c Hc. apply in_app_or in Hc as [Hc|Hc]; [now apply Hch|].
    exact (section_chunks_good st Hp c Hc). }
  split; [exact Hc|]. simpl.
  apply path_ok_firstn; [apply heading_level_le|apply Hp|].
  apply (proj2 (NormalizeProofs.normalize_text_idempotent _)).
Qed.

Lemma pages_step_good (pages : list page) (st st' : pstate) :
  (forall c, In c (ps_chunks st) -> chunk_good c) -> path_ok (ps_path st) ->
  pages_step env pages st = Ok st' ->
  (forall c, In c (ps_chunks st') -> chunk_good c) /\ path_ok (ps_path st').
Proof.
  revert st; induction pages as [|pg pages IH]; intros st Hch Hp E; simpl in E.
  - injection E as <-. now split.
  - destruct pg as [blocks|]; [|discriminate].
    refine (IH _ _ _ E).
    + apply (ParserProofs.fold_left_inv
        (fun st => (forall c, In c (ps_chunks st) -> chunk_good c) /\ path_ok (ps_path st)));
        [now split|].
      intros s b [Hs1 Hs2]. unfold block_step.
      destruct (b_in_header_footer b); [now split|].
      destruct (b_lines b) as [ls|]; [|now split].
      apply (ParserProofs.fold_left_inv
        (fun st => (forall c, In c (ps_chunks st) -> chunk_good c) /\ path_ok (ps_path st)));
        [now split|].
      intros s' l [H1 H2]. now apply line_step_good.
    + apply (ParserProofs.fold_left_inv
        (fun st => (forall c, In c (ps_chunks st) -> chunk_good c) /\ path_ok (ps_path st)));
        [now split|].
      intros s b [Hs1 Hs2]. unfold block_step.
      destruct (b_in_header_footer b); [now split|].
      destruct (b_lines b) as [ls|]; [|now split].
      apply (ParserProofs.fold_left_inv
        (fun st => (forall c, In c (ps_chunks st) -> chunk_good c) /\ path_ok (ps_path st)));
        [now split|].
      intros s' l [H1 H2]. now apply line_step_good.
Qed.

End Env.

(** When [_parse_with_styles] returns, every chunk has a non-empty,
    whitespace-normalised text, the document's title and path, and a
    section path that is the [" > "]-join of normalised headings, at most
    one more than there are heading styles. *)
Theorem parse_chunks_well_formed (env : parse_env) (pages : list page) :
  match parse_with_styles env pages with
  | Ok chunks =>
      forall c, In c chunks ->
        c_text c <> "" /\ normalize_text (c_text c) = c_text c /\
        c_doc_title c = doc_title env /\ c_path c = doc_path env /\
        exists p, (length p <= length (heading_styles env) + 1 /\
                   Forall (fun h => normalize_text h = h) p) /\
                  c_section_path c = Py.join " > " p
  | Raise _ => True
  end.
Proof.
  unfold parse_with_styles.
  destruct (pages_step env pages (mkPState [] "" [] 0)) as [st|e] eqn:E; [|exact I].
  destruct (pages_step_good env pages (mkPState [] "" [] 0) st) as [Hch Hp];
    [intros c []|split; [simpl; lia|constructor]|exact E|].
  destruct (Py.truthy (Py.strip (ps_text st))); [|exact Hch].
  intros c Hc. apply in_app_or in Hc as [Hc|Hc]; [now apply Hch|].
  exact (section_chunks_good env st Hp c Hc).
Qed.

(** [list(range(a, b))] counts up from [a]. *)
Lemma range_zseq (a b : Z) : ParserAux.range a b = Props.zseq a (Z.to_nat (b - a)).
Proof.
  unfold ParserAux.range.
  assert (G : forall n s, map (fun i => (a + Z.of_nat i)%Z) (seq s n) =
                          Props.zseq (a + Z.of_nat s) n).
  { induction n as [|n IH]; intros s; simpl; [reflexivity|].
    f_equal. rewrite IH. f_equal. lia. }
  rewrite G. f_equal. lia.
Qed.

Lemma sorted_app_lt (l1 l2 : list Z) :
  Sorted Z.lt l1 -> Sorted Z.lt l2 ->
  (forall x y, In x l1 -> In y l2 -> (x < y)%Z) -> Sorted Z.lt (l1 ++ l2).
Proof.
  induction l1 as [|a l1 IH]; intros H1 H2 H; simpl; [exact H2|].
  apply Sorted_inv in H1 as [H1 Hh]. constructor.
  - apply IH; [exact H1|exact H2|]. intros x y Hx Hy. apply H; [now right|exact Hy].
  - destruct l1 as [|b l1]; simpl.
    + destruct l2 as [|c l2]; constructor. apply H; now left.
    + constructor. now inversion Hh.
Qed.

(** [_detect_headers_footers] reads no page of a document with at most one
    page; otherwise every page index it reads is a page of the document, and
    none is read twice: the indices are strictly increasing within
    [[0, len(doc))]. *)
Theorem page_indices_in_range (k n : Z) :
  let idx := ParserAux.page_indices k n in
  ((n <= 1)%Z -> idx = []) /\
  Sorted Z.lt idx /\ NoDup idx /\ (forall i, In i idx -> (0 <= i < n)%Z).
Proof.
  cbv zeta. unfold ParserAux.page_indices.
  destruct (n <=? 1)%Z eqn:En.
  { split; [reflexivity|]. split; [constructor|]. split; [constructor|]. intros i []. }
  split; [intros Hn; apply Z.leb_nle in En; lia|].
  rewrite !range_zseq.
  assert (B : forall i, In i (Props.zseq 0 (Z.to_nat (Z.min k n - 0)) ++
                               (if (k * 2 <? n)%Z then Props.zseq (n - k) (Z.to_nat (n - (n - k)))
                                else [])) -> (0 <= i < n)%Z).
  { intros i Hi. apply in_app_or in Hi as [Hi|Hi].
    - apply ParserProofs.zseq_bounds in Hi. lia.
    - destruct (k * 2 <? n)%Z eqn:E; [|destruct Hi].
      apply Z.ltb_lt in E. apply ParserProofs.zseq_bounds in Hi. lia. }
  assert (S : Sorted Z.lt (Props.zseq 0 (Z.to_nat (Z.min k n - 0)) ++
                               (if (k * 2 <? n)%Z then Props.zseq (n - k) (Z.to_nat (n - (n - k)))
                                else []))).
  { apply sorted_app_lt; [apply ParserProofs.zseq_sorted| |].
    - destruct (_ <? _)%Z; [apply ParserProofs.zseq_sorted|constructor].
    - intros x y Hx Hy. destruct (k * 2 <? n)%Z eqn:E; [|destruct Hy].
      apply Z.ltb_lt in E.
      apply ParserProofs.zseq_bounds in Hx. apply ParserProofs.zseq_bounds in Hy. lia. }
  split; [exact S|split; [|exact B]].
  apply Sorted_StronglySorted in S; [|intros x y z; lia].
  clear B. induction S as [|a l _ IH Hall]; constructor; [|exact IH].
  intros Ha. rewrite Forall_forall in Hall. specialize (Hall a Ha). lia.
Qed.

(** [_analyze_font_styles]: with no span at all it returns [([], 0)];
    otherwise the body size is the size of a style with the largest
    character count, the heading styles are exactly the counted styles
    larger than the body size, and they come largest first. *)
Theorem analyze_font_styles_spec (doc : list ParserAux.fpage) :
  let styles := ParserAux.collect_styles doc in
  let '(hs, body) := ParserAux.analyze_font_styles doc in
  (styles = [] -> hs = [] /\ body = 0%Z) /\
  (styles <> [] ->
     exists st n, In (st, n) styles /\ ParserAux.style_size st = body /\
                  forall p, In p styles -> (snd p <= n)%Z) /\
  (forall st, In st hs <->
     (exists n, In (st, n) styles) /\ (body < ParserAux.style_size st)%Z) /\
  Sorted (fun a b => (ParserAux.style_size b <= ParserAux.style_size a)%Z) hs.
Proof.
  cbv zeta. unfold ParserAux.analyze_font_styles.
  destruct (ParserAux.collect_styles doc) as [|p0 ps] eqn:E.
  { split; [easy|split; [easy|split; [intros st; split; [intros []|intros [[n []] _]]|constructor]]]. }
  set (bc := fun y x : ParserAux.style * Z => negb (snd y <? snd x)%Z).
  set (sorted := Py.sort bc (p0 :: ps)).
  pose proof (SortFacts.sort_perm bc (p0 :: ps)) as Hperm.
  assert (Htot : forall x y, bc x y = false -> bc y x = true).
  { unfold bc. intros x y H. apply negb_false_iff, Z.ltb_lt in H.
    apply negb_true_iff, Z.ltb_ge. lia. }
  pose proof (SortFacts.sort_sorted bc Htot (p0 :: ps)) as Hs.
  fold sorted in Hperm, Hs.
  destruct sorted as [|[st n] rest] eqn:Es.
  { apply Permutation_nil in Hperm. discriminate. }
  set (body := ParserAux.style_size st).
  set (bs := fun y x : ParserAux.style => negb (ParserAux.style_size y <? ParserAux.style_size x)%Z).
  assert (Htot' : forall x y, bs x y = false -> bs y x = true).
  { unfold bs. intros x y H. apply negb_false_iff, Z.ltb_lt in H.
    apply negb_true_iff, Z.ltb_ge. lia. }
  split; [discriminate|]. split; [|split].
  - intros _. exists st, n. split; [|split; [reflexivity|]].
    + apply (Permutation_in _ Hperm). now left.
    + apply Sorted_StronglySorted in Hs.
      2:{ intros x y z. unfold Props.stays, bc.
          rewrite !negb_true_iff, !Z.ltb_ge. lia. }
      apply StronglySorted_inv in Hs as [_ Hall].
      intros p Hp. apply (Permutation_in _ (Permutation_sym Hperm)) in Hp.
      destruct Hp as [<-|Hp]; [simpl; lia|].
      rewrite Forall_forall in Hall. specialize (Hall p Hp).
      unfold Props.stays, bc in Hall. apply negb_true_iff, Z.ltb_ge in Hall. exact Hall.
  - intros s. split.
    + intros Hin. apply (Permutation_in _ (SortFacts.sort_perm bs _)) in Hin.
      apply in_map_iff in Hin as [[s' m] [Hs' Hin]]. simpl in Hs'. subst s'.
      apply filter_In in Hin as [Hin Hb]. apply Z.ltb_lt in Hb.
      split; [now exists m|exact Hb].
    + intros [[m Hin] Hb]. apply (Permutation_in _ (Permutation_sym (SortFacts.sort_perm bs _))).
      apply in_map_iff. exists (s, m). split; [reflexivity|].
      apply filter_In. split; [exact Hin|]. now apply Z.ltb_lt.
  - apply (SortFacts.sorted_impl (Props.stays bs)); [|apply SortFacts.sort_sorted, Htot'].
    intros a b H. unfold Props.stays, bs in H. apply negb_true_iff, Z.ltb_ge in H. exact H.
Qed.

Lemma has_char_app (c : ascii) (a b : string) :
  ParserAux.has_char c (a ++ b) = (ParserAux.has_char c a || ParserAux.has_char c b)%bool.
Proof.
  unfold ParserAux.has_char. now rewrite WordFacts.list_of_string_app, existsb_app.
Qed.

Lemma has_char_cons (c d : ascii) (s : string) :
  ParserAux.has_char c (String d s) = (Ascii.eqb c d || ParserAux.has_char c s)%bool.
Proof. reflexivity. Qed.

Lemma basename_no_slash (p : string) : ParserAux.has_char "/" (ParserAux.basename p) = false.
Proof.
  induction p as [|c p IH]; simpl; [reflexivity|].
  destruct (ParserAux.has_char "/" p) eqn:H; [exact IH|].
  destruct (Ascii.eqb c "/") eqn:Ec; [exact H|].
  rewrite has_char_cons, H, Ascii.eqb_sym, Ec. reflexivity.
Qed.

Lemma substring_chars (c : ascii) (n m : nat) (s : string) :
  ParserAux.has_char c (substring n m s) = true -> ParserAux.has_char c s = true.
Proof.
  revert n m; induction s as [|d s IH]; intros n m H.
  - destruct n, m; discriminate.
  - rewrite has_char_cons. apply orb_true_iff.
    destruct n as [|n].
    + destruct m as [|m]; [discriminate|].
      simpl in H. rewrite has_char_cons in H. apply orb_true_iff in H as [H|H]; [now left|].
      right. exact (IH 0 m H).
    + right. exact (IH n m H).
Qed.

(** [str.replace] writes no character that is neither in the replacement
    nor in the original. *)
Lemma replace_go_chars (c : ascii) (f : nat) (old new s : string) :
  ParserAux.has_char c (ParserAux.replace_go f old new s) = true ->
  ParserAux.has_char c new = true \/ ParserAux.has_char c s = true.
Proof.
  revert s; induction f as [|f IH]; intros s H; simpl in H; [now right|].
  destruct s as [|d s]; [discriminate|].
  destruct (String.prefix old (String d s)).
  - rewrite has_char_app in H. apply orb_true_iff in H as [H|H]; [now left|].
    apply IH in H as [H|H]; [now left|]. right. exact (substring_chars _ _ _ _ H).
  - rewrite has_char_cons in H. apply orb_true_iff in H as [H|H].
    + right. rewrite has_char_cons, H. reflexivity.
    + apply IH in H as [H|H]; [now left|]. right. rewrite has_char_cons, H. apply orb_true_r.
Qed.

Lemma substring_all (m : nat) (s : string) : String.length s <= m -> substring 0 m s = s.
Proof.
  revert m; induction s as [|c s IH]; intros m H; destruct m; simpl in *; try lia; try reflexivity.
  f_equal. apply IH. lia.
Qed.

(** [.replace("_", " ")] leaves no ["_"]. *)
Lemma replace_underscore_gone (f : nat) (s : string) :
  String.length s < f ->
  ParserAux.has_char "_" (ParserAux.replace_go f "_" " " s) = false.
Proof.
  revert s; induction f as [|f IH]; intros s H; [lia|].
  destruct s as [|d s]; [reflexivity|]. simpl in H.
  cbn [ParserAux.replace_go].
  destruct (String.prefix "_" (String d s)) eqn:Ep.
  - simpl String.length. simpl substring. rewrite substring_all by lia.
    rewrite has_char_app. simpl. apply IH. lia.
  - rewrite has_char_cons, IH by lia.
    destruct (Ascii.eqb "_" d) eqn:Ed; [|reflexivity].
    apply Ascii.eqb_eq in Ed. subst d. destruct s; discriminate Ep.
Qed.

(** The document title of [_get_doc_metadata] contains no ['/'] and no
    ['_']. *)
Theorem doc_title_no_slash_underscore (file_path : string) :
  ParserAux.has_char "/" (ParserAux.doc_title_of file_path) = false /\
  ParserAux.has_char "_" (ParserAux.doc_title_of file_path) = false.
Proof.
  unfold ParserAux.doc_title_of, ParserAux.replace.
  split.
  - destruct (ParserAux.has_char "/" _) eqn:H; [|reflexivity]. exfalso.
    apply replace_go_chars in H as [H|H]; [discriminate|].
    apply replace_go_chars in H as [H|H]; [discriminate|].
    rewrite basename_no_slash in H. discriminate.
  - destruct (ParserAux.has_char "_" _) eqn:H; [|reflexivity]. exfalso.
    apply replace_go_chars in H as [H|H]; [discriminate|].
    rewrite replace_underscore_gone in H by lia. discriminate.
Qed.

End ParseShapeProofs.

(* ------------------------------------------------------------------ *)
(** ** Float order, and the keywords of the query optimizer *)

Module FloatOrder.

Lemma SFcompare_swap (x y : spec_float) :
  SFcompare y x = option_map CompOpp (SFcompare x y).
Proof.
  destruct x as [s1|s1| |s1 m1 e1], y as [s2|s2| |s2 m2 e2];
    try destruct s1; try destruct s2; try reflexivity; simpl;
    rewrite (Z.compare_antisym e1 e2); destruct (e1 ?= e2)%Z; simpl; try reflexivity;
    pose proof (Pos.compare_cont_antisym m1 m2 Eq) as H; simpl in H; rewrite H; reflexivity.
Qed.

(** [a < b] and [b < a] never hold together, NaN included. *)
Lemma ltb_asym (a b : float) : PrimFloat.ltb a b = true -> PrimFloat.ltb b a = false.
Proof.
  rewrite !ltb_spec. unfold SFltb. rewrite (SFcompare_swap (Prim2SF a) (Prim2SF b)).
  destruct (SFcompare (Prim2SF a) (Prim2SF b)) as [[]|]; simpl; congruence.
Qed.

End FloatOrder.

Module OptimizerExtraProofs.
Import Optimizer Props.

Lemma split_ws_go_chars (s : string) (cur : list ascii) (w : string) (c : ascii) :
  In w (Py.split_ws_go cur s) -> In c (list_ascii_of_string w) ->
  In c cur \/ In c (list_ascii_of_string s).
Proof.
  revert cur; induction s as [|d s IH]; intros cur Hw Hc; simpl in Hw.
  - destruct cur as [|a cur]; [contradiction|].
    destruct Hw as [<-|[]]. left.
    rewrite list_ascii_of_string_of_list_ascii in Hc. now apply in_rev in Hc.
  - destruct (Py.is_space d).
    + destruct cur as [|a cur].
      * destruct (IH [] Hw Hc) as [[]|H]. right. now right.
      * destruct Hw as [<-|Hw].
        -- left. rewrite list_ascii_of_string_of_list_ascii in Hc. now apply in_rev in Hc.
        -- destruct (IH [] Hw Hc) as [[]|H]. right. now right.
    + destruct (IH (d :: cur) Hw Hc) as [[<-|H]|H].
      * right. now left.
      * now left.
      * right. now right.
Qed.

(** A token of [str.split()] holds only characters of the string. *)
Lemma split_ws_chars (s w : string) (c : ascii) :
  In w (Py.split_ws s) -> In c (list_ascii_of_string w) -> In c (list_ascii_of_string s).
Proof.
  intros Hw Hc. destruct (split_ws_go_chars s [] w c Hw Hc) as [[]|H]. exact H.
Qed.

Lemma join_chars (ws : list string) (c : ascii) :
  In c (list_ascii_of_string (Py.join " " ws)) ->
  c = " "%char \/ exists w, In w ws /\ In c (list_ascii_of_string w).
Proof.
  induction ws as [|w [|v ws] IH]; simpl; intros H; [contradiction| |].
  - right. exists w. split; [now left|exact H].
  - change (In c (list_ascii_of_string (w ++ " " ++ Py.join " " (v :: ws)))) in H.
    rewrite !WordFacts.list_of_string_app in H.
    apply in_app_or in H as [H|[H|H]].
    + right. exists w. split; [now left|exact H].
    + now left.
    + destruct (IH H) as [E|[u [Hu Hc]]]; [now left|].
      right. exists u. split; [now right|exact Hc].
Qed.

Lemma filter_string_chars (p : ascii -> bool) (s : string) (c : ascii) :
  In c (list_ascii_of_string (filter_string p s)) -> p c = true.
Proof.
  induction s as [|d s IH]; simpl; [intros []|].
  destruct (p d) eqn:Hd; simpl; [|exact IH].
  intros [<-|H]; [exact Hd|exact (IH H)].
Qed.

(** Every keyword is a whitespace token of the query. *)
Lemma extract_keywords_tokens (o : optimizer) (q w : string) :
  In w (extract_keywords o q) -> In w (Py.split_ws q).
Proof.
  destruct (kept_tokens o q) as [|t ts] eqn:E.
  - unfold extract_keywords. now rewrite E.
  - destruct (OptimizerProofs.extract_keywords_ranked o q t ts E) as [ranked [Hp Hek]].
    rewrite Hek. destruct (SortFacts.take_firstn (top_k o) ranked) as [n ->].
    intros Hw. apply SortFacts.in_firstn in Hw. apply (Permutation_in _ Hp) in Hw.
    rewrite <- E in Hw. exact (OptimizerProofs.kept_tokens_in _ _ _ Hw).
Qed.

(** [optimize] is the keyword list joined by single spaces, and splitting
    it again gives back exactly that list; each keyword is a token of the
    cleaned query, and the result holds only [a-z], [0-9] and spaces. *)
Theorem optimize_splits_to_keywords (o : optimizer) (query : string) :
  Py.split_ws (optimize o query) = extract_keywords o (clean query) /\
  (forall w, In w (extract_keywords o (clean query)) -> In w (Py.split_ws (clean query))) /\
  (forall c, In c (list_ascii_of_string (optimize o query)) ->
     c = " "%char \/
     (97 <= nat_of_ascii c <= 122) \/ (48 <= nat_of_ascii c <= 57)).
Proof.
  assert (Hin := extract_keywords_tokens o (clean query)).
  split; [|split; [exact Hin|]].
  - unfold optimize. apply WordFacts.split_ws_join_words.
    apply Forall_forall. intros w Hw. exact (WordFacts.split_ws_words _ _ (Hin w Hw)).
  - intros c Hc. unfold optimize in Hc.
    apply join_chars in Hc as [E|[w [Hw Hc]]]; [now left|right].
    pose proof (Hin w Hw) as Hw'.
    destruct (WordFacts.split_ws_words _ _ Hw') as [_ Hsp].
    rewrite Forall_forall in Hsp. specialize (Hsp c Hc).
    pose proof (filter_string_chars keep_char _ c (split_ws_chars _ _ _ Hw' Hc)) as Hk.
    unfold keep_char in Hk. rewrite Hsp, orb_false_r in Hk.
    apply orb_true_iff in Hk as [Hk|Hk]; apply andb_true_iff in Hk as [H1 H2];
      apply Nat.leb_le in H1, H2; [left|right]; lia.
Qed.

(** When some token survives the filters, [extract_keywords] returns the
    first [top_k] tokens of a reordering of the surviving tokens in which no
    token has a strictly higher similarity than the one before it. *)
Theorem extract_keywords_ranked_by_similarity (o : optimizer) (query : string) :
  kept_tokens o query <> [] ->
  exists ranked,
    Permutation ranked
      (map (fun t => (t, token_similarity (encode o t) (encode o query)))
           (kept_tokens o query)) /\
    Sorted (fun y x => PrimFloat.ltb (snd y) (snd x) = false) ranked /\
    extract_keywords o query = map fst (Py.take (top_k o) ranked).
Proof.
  intros Hne. unfold extract_keywords.
  destruct (kept_tokens o query) as [|t ts] eqn:E; [easy|]. cbv zeta.
  set (sims := map (fun t0 => (t0, token_similarity (encode o t0) (encode o query))) (t :: ts)).
  exists (Py.sort sim_before sims). split; [apply SortFacts.sort_perm|split; [|reflexivity]].
  assert (Htot : forall x y, sim_before x y = false -> sim_before y x = true).
  { unfold sim_before. intros x y H. apply negb_false_iff in H.
    apply negb_true_iff. now apply FloatOrder.ltb_asym. }
  apply (SortFacts.sorted_impl (stays sim_before)); [|now apply SortFacts.sort_sorted].
  intros a b H. unfold stays, sim_before in H. now apply negb_true_iff in H.
Qed.

(** Witness: the ranking theorem on a query whose tokens survive. *)
Lemma extract_keywords_ranked_by_similarity_witness :
  kept_tokens nltk_optimizer "apple banana" <> [] /\
  exists ranked,
    Permutation ranked
      (map (fun t => (t, token_similarity (encode nltk_optimizer t)
                           (encode nltk_optimizer "apple banana")))
           (kept_tokens nltk_optimizer "apple banana")) /\
    Sorted (fun y x => PrimFloat.ltb (snd y) (snd x) = false) ranked /\
    extract_keywords nltk_optimizer "apple banana" =
      map fst (Py.take (top_k nltk_optimizer) ranked).
Proof.
  assert (H : kept_tokens nltk_optimizer "apple banana" <> []) by (vm_compute; discriminate).
  split; [exact H|].
  exact (extract_keywords_ranked_by_similarity nltk_optimizer "apple banana" H).
Defined.

End OptimizerExtraProofs.

(* ------------------------------------------------------------------ *)
(** ** Deduplication and stitching of the context assembler *)

Module AssemblerExtraProofs.
Import Assembler Props.

Lemma dedup_go_prefix (t : Q) (u l : list block) :
  exists x, dedup_go t u l = (u ++ x)%list.
Proof.
  revert u; induction l as [|b l IH]; intros u; simpl.
  - exists []. now rewrite app_nil_r.
  - destruct (existsb _ u); [apply IH|].
    destruct (IH (u ++ [b])%list) as [x ->]. exists (b :: x). now rewrite <- app_assoc.
Qed.

Lemma dedup_go_subseq (t : Q) (l u : list block) :
  exists x, dedup_go t u l = (u ++ x)%list /\ subseq x l.
Proof.
  revert u; induction l as [|b l IH]; intros u; simpl.
  - exists []. split; [now rewrite app_nil_r|constructor].
  - destruct (existsb _ u).
    + destruct (IH u) as [x [-> Hx]]. exists x. split; [reflexivity|now constructor].
    + destruct (IH (u ++ [b])%list) as [x [-> Hx]]. exists (b :: x).
      split; [now rewrite <- app_assoc|now constructor].
Qed.

Lemma dedup_go_in (t : Q) (u l : list block) (b : block) :
  In b (dedup_go t u l) -> In b u \/ In b l.
Proof.
  revert u; induction l as [|c l IH]; intros u H; simpl in H; [now left|].
  destruct (existsb _ u).
  - destruct (IH u H) as [H'|H']; [now left|right; now right].
  - destruct (IH _ H) as [H'|H']; [|right; now right].
    apply in_app_or in H' as [H'|[<-|[]]]; [now left|right; now left].
Qed.

Lemma dedup_go_cover (t : Q) (u l : list block) (b : block) :
  In b (u ++ l) ->
  In b (dedup_go t u l) \/
  exists x, In x (dedup_go t u l) /\ is_similar t (blk_text b) (blk_text x) = true.
Proof.
  revert u; induction l as [|c l IH]; intros u H; simpl.
  - left. now rewrite app_nil_r in H.
  - destruct (existsb (fun v => is_similar t (blk_text c) (blk_text v)) u) eqn:E.
    + apply in_app_or in H as [H|[<-|H]].
      * apply IH, in_or_app. now left.
      * right. apply existsb_exists in E as [x [Hx Hs]]. exists x. split; [|exact Hs].
        destruct (dedup_go_prefix t u l) as [y ->]. apply in_or_app. now left.
      * apply IH, in_or_app. now right.
    + apply IH. rewrite <- app_assoc. exact H.
Qed.

Lemma fop_app_mid {A} (R : A -> A -> Prop) (u r : list A) (b : A) :
  ForallOrdPairs R (u ++ b :: r) -> forall a, In a u -> R a b.
Proof.
  induction u as [|c u IH]; intros H a Ha; [destruct Ha|].
  inversion H as [|? ? Hc Hu]; subst. destruct Ha as [<-|Ha].
  - rewrite Forall_forall in Hc. apply Hc. apply in_or_app. right. now left.
  - exact (IH Hu a Ha).
Qed.

Lemma dedup_go_fixed (t : Q) (r u : list block) :
  ForallOrdPairs (fun a b => is_similar t (blk_text b) (blk_text a) = false) (u ++ r) ->
  dedup_go t u r = (u ++ r)%list.
Proof.
  revert u; induction r as [|b r IH]; intros u H; simpl; [now rewrite app_nil_r|].
  replace (existsb _ u) with false.
  - rewrite IH; [now rewrite <- app_assoc|]. now rewrite <- app_assoc.
  - symmetry. apply not_true_iff_false. intros E.
    apply existsb_exists in E as [a [Ha Hs]].
    rewrite (fop_app_mid _ u r b H a Ha) in Hs. discriminate.
Qed.

(** [deduplicate] keeps blocks of its input, in their order, always the
    first one; every block it drops is similar to a kept one; and running
    it again on its result changes nothing. *)
Theorem deduplicate_spec (threshold : Q) (blocks : list block) :
  let r := deduplicate threshold blocks in
  subseq r blocks /\
  (forall b, In b r -> In b blocks) /\
  (forall b, In b blocks ->
     In b r \/ exists u, In u r /\ is_similar threshold (blk_text b) (blk_text u) = true) /\
  hd_error r = hd_error blocks /\
  deduplicate threshold r = r.
Proof.
  cbv zeta. unfold deduplicate. split; [|split; [|split; [|split]]].
  - destruct (dedup_go_subseq threshold blocks []) as [x [-> Hx]]. exact Hx.
  - intros b H. destruct (dedup_go_in threshold [] blocks b H) as [[]|H']. exact H'.
  - intros b H. exact (dedup_go_cover threshold [] blocks b H).
  - destruct blocks as [|b bs]; [reflexivity|]. simpl.
    destruct (dedup_go_prefix threshold [b] bs) as [x ->]. reflexivity.
  - apply (dedup_go_fixed threshold _ []). simpl.
    apply AssemblerProofs.dedup_go_pairs. constructor.
Qed.

(** Stitching: the indices of the blocks are those of the items. *)
Lemma flush_indices (section : string) (group : list item) :
  concat (map blk_chunk_indices (flush section group)) = map it_chunk_index group.
Proof. destruct group; simpl; [reflexivity|]. now rewrite app_nil_r. Qed.

Lemma stitch_go_indices (gap : Z) (section : string) (items : list item) :
  forall cur last,
  (last = None -> cur = []) ->
  concat (map blk_chunk_indices (stitch_go gap section cur last items)) =
  (map it_chunk_index cur ++ map it_chunk_index items)%list.
Proof.
  induction items as [|it rest IH]; intros cur last Hl; simpl.
  - now rewrite flush_indices, app_nil_r.
  - destruct last as [l|].
    + destruct (within_gap gap (it_chunk_index it) l).
      * rewrite IH by discriminate. rewrite map_app, <- app_assoc. reflexivity.
      * rewrite map_app, concat_app, flush_indices, IH by discriminate. reflexivity.
    + rewrite (Hl eq_refl), IH by discriminate. reflexivity.
Qed.

Lemma group_add_perm (key : string) (it : item) (g : list (string * list item)) :
  Permutation (concat (map snd (group_add key it g))) (concat (map snd g) ++ [it]).
Proof.
  induction g as [|[k items] g IH]; simpl; [reflexivity|].
  destruct (String.eqb k key); simpl.
  - rewrite <- !app_assoc. apply Permutation_app_head.
    apply Permutation_app_comm.
  - rewrite <- app_assoc. now apply Permutation_app_head.
Qed.

(** The chunk index [group_by_section] gives an item of a hit. *)
Lemma group_by_section_perm (hits : list hit) :
  Permutation (map it_chunk_index (concat (map snd (group_by_section hits))))
    (map (fun h => match p_chunk_index (payload_of h) with Some z => Fin z | None => Inf end)
         (filter has_some_content hits)).
Proof.
  unfold group_by_section.
  assert (G : forall g, Permutation
     (map it_chunk_index (concat (map snd (fold_left group_step hits g))))
     (map it_chunk_index (concat (map snd g)) ++
      map (fun h => match p_chunk_index (payload_of h) with Some z => Fin z | None => Inf end)
          (filter has_some_content hits))).
  { induction hits as [|h hs IH]; intros g; simpl; [now rewrite app_nil_r|].
    rewrite IH. destruct (has_some_content h) eqn:E.
    - unfold group_step at 1.
      rewrite <- AssemblerProofs.hit_has_content_iff in E.
      unfold hit_has_content, hit_content in E. rewrite E. simpl.
      rewrite (Permutation_map _ (group_add_perm _ _ g)), map_app, <- app_assoc.
      reflexivity.
    - rewrite AssemblerProofs.group_step_skip by exact E. reflexivity. }
  rewrite G. reflexivity.
Qed.

(** Every hit with content ends up in exactly one stitched block: the
    chunk indices of the blocks of [stitch_neighbors], taken together, are
    a reordering of those of the hits with content ([inf] when unknown). *)
Theorem stitched_indices_are_hits (gap : Z) (hits : list hit) :
  Permutation (concat (map blk_chunk_indices (stitch_neighbors gap (group_by_section hits))))
    (map (fun h => match p_chunk_index (payload_of h) with Some z => Fin z | None => Inf end)
         (filter has_some_content hits)).
Proof.
  rewrite <- group_by_section_perm.
  induction (group_by_section hits) as [|[section items] g IH]; simpl; [reflexivity|].
  rewrite map_app, concat_app, stitch_go_indices by reflexivity. simpl.
  rewrite map_app. apply Permutation_app; [|exact IH].
  apply Permutation_map, SortFacts.sort_perm.
Qed.

Lemma sorted_snoc {A} (R : A -> A -> Prop) (l : list A) (a b : A) :
  Sorted R (l ++ [a]) -> R a b -> Sorted R (l ++ [a; b]).
Proof.
  induction l as [|c l IH]; intros H Hab; simpl in *.
  - constructor; [constructor; [constructor|constructor]|constructor; exact Hab].
  - apply Sorted_inv in H as [H Hh]. constructor; [now apply IH|].
    destruct l; simpl in *; inversion Hh; now constructor.
Qed.

Lemma sorted_map {A B} (R : A -> A -> Prop) (R' : B -> B -> Prop) (f : A -> B) (l : list A) :
  (forall a b, R a b -> R' (f a) (f b)) -> Sorted R l -> Sorted R' (map f l).
Proof.
  intros HR H. induction H as [|a l Hl IH Hh]; simpl; constructor; [exact IH|].
  destruct Hh; simpl; constructor. now apply HR.
Qed.

Section Stitch.
Variable gap : Z.

(** Two indices that follow each other inside one stitched block. *)
Local Abbreviation adj x y := (ext_le x y = true /\ within_gap gap y x = true).

Lemma stitch_go_blocks (section : string) (items : list item) :
  forall cur last,
  Sorted (fun x y => ext_le x y = true)
         (match last with Some l => [l] | None => [] end ++ map it_chunk_index items) ->
  match last with
  | None => cur = []
  | Some l => exists pre, map it_chunk_index cur = (pre ++ [l])%list /\
                          Sorted (fun x y => adj x y) (pre ++ [l])
  end ->
  forall b, In b (stitch_go gap section cur last items) ->
    blk_section b = section /\ blk_chunk_indices b <> [] /\
    Sorted (fun x y => adj x y) (blk_chunk_indices b).
Proof.
  assert (Fl : forall cur l, (exists pre, map it_chunk_index cur = (pre ++ [l])%list /\
                          Sorted (fun x y => adj x y) (pre ++ [l])) ->
             forall b, In b (flush section cur) ->
               blk_section b = section /\ blk_chunk_indices b <> [] /\
               Sorted (fun x y => adj x y) (blk_chunk_indices b)).
  { intros cur l [pre [E S]] b Hb. destruct cur as [|c cur].
    - destruct pre; discriminate.
    - destruct Hb as [<-|[]]. simpl. split; [reflexivity|].
      change (map it_chunk_index (c :: cur) <> [] /\
              Sorted (fun x y => adj x y) (map it_chunk_index (c :: cur))).
      rewrite E. split; [destruct pre; discriminate|exact S]. }
  induction items as [|it rest IH]; intros cur last Hs Hc b Hb; simpl in Hb.
  - destruct last as [l|]; [exact (Fl cur l Hc b Hb)|]. subst cur. destruct Hb.
  - assert (Hr : Sorted (fun x y => ext_le x y = true) (it_chunk_index it :: map it_chunk_index rest)).
    { destruct last; simpl in Hs; [now apply Sorted_inv in Hs as [Hs _]|exact Hs]. }
    assert (Hone : exists pre, map it_chunk_index [it] = (pre ++ [it_chunk_index it])%list /\
                     Sorted (fun x y => adj x y) (pre ++ [it_chunk_index it])).
    { exists []. split; [reflexivity|repeat constructor]. }
    destruct last as [l|].
    + destruct (within_gap gap (it_chunk_index it) l) eqn:W.
      * apply (IH (cur ++ [it])%list (Some (it_chunk_index it)) Hr); [|exact Hb].
        destruct Hc as [pre [E S]]. exists (pre ++ [l])%list. split.
        -- rewrite map_app, E. reflexivity.
        -- rewrite <- app_assoc. apply sorted_snoc; [exact S|]. split; [|exact W].
           simpl in Hs. apply Sorted_inv in Hs as [_ Hh]. now inversion Hh.
      * apply in_app_or in Hb as [Hb|Hb]; [exact (Fl cur l Hc b Hb)|].
        exact (IH [it] (Some (it_chunk_index it)) Hr Hone b Hb).
    + exact (IH [it] (Some (it_chunk_index it)) Hr Hone b Hb).
Qed.

(** Every block of [stitch_neighbors] belongs to one of the sections, has
    at least one chunk index, and its indices ascend, each within
    [neighbor_gap] of the one before. *)
Theorem stitched_blocks_ascending (grouped : list (string * list item)) :
  forall b, In b (stitch_neighbors gap grouped) ->
    In (blk_section b) (map fst grouped) /\ blk_chunk_indices b <> [] /\
    Sorted (fun x y => ext_le x y = true /\ within_gap gap y x = true)
           (blk_chunk_indices b).
Proof.
  intros b Hb. unfold stitch_neighbors in Hb. apply in_flat_map in Hb as [[section items] [Hg Hb]].
  assert (Htot : forall x y, index_before x y = false -> index_before y x = true).
  { unfold index_before, ext_le. intros x y.
    destruct (it_chunk_index x) as [a|], (it_chunk_index y) as [c|]; try easy.
    rewrite !Z.leb_gt, Z.leb_le. lia. }
  assert (Hs : Sorted (fun x y => ext_le x y = true)
                 (map it_chunk_index (Py.sort index_before items))).
  { apply (sorted_map (stays index_before)); [|exact (SortFacts.sort_sorted index_before Htot items)].
    intros x y H. exact H. }
  destruct (stitch_go_blocks section _ [] None Hs eq_refl b Hb) as [H1 H2].
  split; [|exact H2]. rewrite H1. apply in_map_iff. now exists (section, items).
Qed.

End Stitch.

(** Witness: two neighbouring chunks of one section stitched into one block. *)
Lemma stitched_blocks_ascending_witness :
  let g := [("Intro", [mkItem (Some "p2") (Fin 1) "beta" (1 # 2) "doc";
                       mkItem (Some "p1") (Fin 0) "alpha" (9 # 10) "doc"])] in
  let b := hd (mkBlock "" "" "" [] 0) (stitch_neighbors 1 g) in
  In b (stitch_neighbors 1 g) /\
  In (blk_section b) (map fst g) /\ blk_chunk_indices b <> [] /\
  Sorted (fun x y => ext_le x y = true /\ within_gap 1 y x = true) (blk_chunk_indices b).
Proof.
  cbv zeta.
  assert (H : In (hd (mkBlock "" "" "" [] 0)
              (stitch_neighbors 1 [("Intro", [mkItem (Some "p2") (Fin 1) "beta" (1 # 2) "doc";
                       mkItem (Some "p1") (Fin 0) "alpha" (9 # 10) "doc"])]))
              (stitch_neighbors 1 [("Intro", [mkItem (Some "p2") (Fin 1) "beta" (1 # 2) "doc";
                       mkItem (Some "p1") (Fin 0) "alpha" (9 # 10) "doc"])]))
    by (vm_compute; left; reflexivity).
  split; [exact H|].
  exact (stitched_blocks_ascending 1 _ _ H).
Defined.

End AssemblerExtraProofs.

(* ------------------------------------------------------------------ *)
(** ** The BM25 reranker's score writes and its reordering *)

Module RerankerProofs.
Import Reranker Props.

Lemma assoc_get_set (k : string) (v : pyval) (d : list (string * pyval)) :
  assoc_get k (assoc_set k v d) = Some v.
Proof.
  induction d as [|[k' v'] d IH]; simpl; [now rewrite String.eqb_refl|].
  destruct (String.eqb k' k) eqn:E; simpl; rewrite E; [reflexivity|exact IH].
Qed.

Lemma upd_eq {A} (f : nat -> A) (k : nat) (v : A) : upd f k v k = v.
Proof. unfold upd. now rewrite Nat.eqb_refl. Qed.

Lemma upd_neq {A} (f : nat -> A) (k k' : nat) (v : A) : k' <> k -> upd f k v k' = f k'.
Proof. intros H. unfold upd. apply Nat.eqb_neq in H. now rewrite H. Qed.

(** A write that can hold a score is read back on the candidate written. *)
Lemma set_get_at (float_of_str : string -> option float) (st : store) (r : nat) (s : float) :
  holds_score (cands st r) = true ->
  get_score_from_doc float_of_str (set_score_on_doc st r s) r = s.
Proof.
  unfold set_score_on_doc, get_score_from_doc.
  destruct (cands st r) as [[|p|]|[|p|] a [|]] eqn:E; simpl; intros H;
    try discriminate; rewrite ?upd_eq, ?E; simpl; rewrite ?upd_eq, ?assoc_get_set; reflexivity.
Qed.

(** A write leaves every other candidate object as it was. *)
Lemma set_cands_other (st : store) (r x : nat) (s : float) :
  x <> r -> cands (set_score_on_doc st r s) x = cands st x.
Proof.
  intros H. unfold set_score_on_doc.
  destruct (cands st r) as [[|p|]|[|p|] a [|]]; simpl; rewrite ?upd_neq by exact H; reflexivity.
Qed.

(** A candidate that can hold no score is never changed. *)
Lemma set_cands_nohold (st : store) (r x : nat) (s : float) :
  holds_score (cands st x) = false -> cands (set_score_on_doc st r s) x = cands st x.
Proof.
  intros H. destruct (Nat.eq_dec x r) as [->|Hne]; [|now apply set_cands_other].
  unfold set_score_on_doc.
  destruct (cands st r) as [[|p|]|[|p|] a [|]] eqn:E; simpl in *; try discriminate; congruence.
Qed.

Lemma set_holds (st : store) (r x : nat) (s : float) :
  holds_score (cands (set_score_on_doc st r s) x) = holds_score (cands st x).
Proof.
  destruct (Nat.eq_dec x r) as [->|Hne]; [|now rewrite set_cands_other].
  unfold set_score_on_doc.
  destruct (cands st r) as [[|p|]|[|p|] a [|]] eqn:E; simpl; rewrite ?upd_eq, ?E; reflexivity.
Qed.

(** A write changes no dict but the one it writes to. *)
Lemma set_dicts_other (st : store) (r : nat) (s : float) (p : nat) :
  store_ok st -> (payload_ref (cands st r) <> Some p) -> p < next_dict st ->
  dicts (set_score_on_doc st r s) p = dicts st p.
Proof.
  intros Hok Hr Hp. unfold set_score_on_doc.
  destruct (cands st r) as [[|q|]|[|q|] a [|]] eqn:E; simpl in *; try reflexivity.
  all: unfold upd; simpl.
  all: first [ destruct (Nat.eqb_spec p (next_dict st)); [lia|reflexivity]
             | destruct (Nat.eqb_spec p q); [subst; congruence|reflexivity] ].
Qed.

(** A write to another candidate that does not share the payload dict
    leaves the score read on a candidate as it was. *)
Lemma get_frame (float_of_str : string -> option float) (st : store) (r x : nat) (s : float) :
  store_ok st -> x <> r ->
  (forall p, payload_ref (cands st x) = Some p -> payload_ref (cands st r) <> Some p) ->
  get_score_from_doc float_of_str (set_score_on_doc st r s) x =
  get_score_from_doc float_of_str st x.
Proof.
  intros Hok Hne Hsh. unfold get_score_from_doc at 1.
  rewrite set_cands_other by exact Hne. unfold get_score_from_doc.
  destruct (cands st x) as [[|p|]|[|p|] a b] eqn:E; try reflexivity.
  all: assert (Hd : dicts (set_score_on_doc st r s) p = dicts st p)
         by (apply set_dicts_other; [exact Hok|apply Hsh; reflexivity|apply (Hok x); now rewrite E]).
  all: now rewrite Hd.
Qed.

Lemma store_ok_from (st cur : store) :
  store_ok st -> allocated_from st cur -> store_ok cur.
Proof.
  intros Hok [Hn Hx] r p Hp. destruct (Hx r) as [E|[q [Hq [E _]]]].
  - rewrite E in Hp. specialize (Hok r p Hp). lia.
  - rewrite E in Hp. injection Hp as <-. lia.
Qed.

Lemma allocated_refl (st : store) : allocated_from st st.
Proof. split; [lia|]. intros x. now left. Qed.

(** A write to a candidate that has a payload, or none to create, keeps
    every payload reference and allocates nothing. *)
Lemma set_refs (cur : store) (r : nat) (s : float) :
  cands cur r <> DictDoc Missing ->
  next_dict (set_score_on_doc cur r s) = next_dict cur /\
  forall y, payload_ref (cands (set_score_on_doc cur r s) y) = payload_ref (cands cur y).
Proof.
  intros Hm. unfold set_score_on_doc.
  destruct (cands cur r) as [[|p|]|[|p|] a [|]] eqn:E; simpl;
    try (split; [reflexivity|intros y; reflexivity]); try congruence.
  all: split; [reflexivity|]; intros y; destruct (Nat.eq_dec y r) as [->|Hne];
         [rewrite upd_eq, E; reflexivity|rewrite upd_neq by exact Hne; reflexivity].
Qed.

Lemma allocated_step (st cur : store) (r : nat) (s : float) :
  store_ok st -> allocated_from st cur -> allocated_from st (set_score_on_doc cur r s).
Proof.
  intros Hok Hal. pose proof (store_ok_from st cur Hok Hal) as Hokc.
  destruct Hal as [Hn Hx].
  destruct (cands cur r) as [[|p|]|[|p|] a b] eqn:E;
    try (destruct (set_refs cur r s) as [Hn' Hr]; [congruence|];
         split; [rewrite Hn'; exact Hn|]; intros x; rewrite Hr;
         destruct (Hx x) as [Ex|[q [Hq [Ex Hu]]]]; [now left|right];
         exists q; rewrite Hn'; split; [exact Hq|split; [exact Ex|]];
         intros y Hy; rewrite Hr in Hy; exact (Hu y Hy)).
  unfold set_score_on_doc. rewrite E. unfold write_score, allocated_from. simpl.
  split; [lia|]. intros x. destruct (Nat.eq_dec x r) as [->|Hne].
  - right. exists (next_dict cur). rewrite upd_eq. split; [lia|split; [reflexivity|]].
    intros y Hy. destruct (Nat.eq_dec y r) as [->|Hyr]; [reflexivity|].
    rewrite upd_neq in Hy by exact Hyr. specialize (Hokc y _ Hy). lia.
  - rewrite upd_neq by exact Hne.
    destruct (Hx x) as [Ex|[q [Hq [Ex Hu]]]]; [now left|right].
    exists q. split; [lia|split; [exact Ex|]]. intros y Hy.
    destruct (Nat.eq_dec y r) as [->|Hyr].
    + rewrite upd_eq in Hy. simpl in Hy. injection Hy as Hy. lia.
    + rewrite upd_neq in Hy by exact Hyr. exact (Hu y Hy).
Qed.

Lemma set_scores_app (scores : list float) (l1 l2 : list nat) :
  forall i st, set_scores scores i st (l1 ++ l2) =
               set_scores scores (i + length l1) (set_scores scores i st l1) l2.
Proof.
  induction l1 as [|r l1 IH]; intros i st; simpl; [now rewrite Nat.add_0_r|].
  rewrite IH. f_equal. lia.
Qed.

Lemma set_scores_alloc (scores : list float) (st : store) (l : list nat) :
  store_ok st -> forall i cur, allocated_from st cur ->
  allocated_from st (set_scores scores i cur l).
Proof.
  intros Hok. induction l as [|r l IH]; intros i cur Hal; simpl; [exact Hal|].
  apply IH, allocated_step; assumption.
Qed.

Lemma set_scores_holds (scores : list float) (l : list nat) (x : nat) :
  forall i cur, holds_score (cands (set_scores scores i cur l) x) = holds_score (cands cur x).
Proof.
  induction l as [|r l IH]; intros i cur; simpl; [reflexivity|].
  rewrite IH. apply set_holds.
Qed.

Lemma set_scores_nohold (scores : list float) (l : list nat) (x : nat) :
  forall i cur, holds_score (cands cur x) = false ->
  cands (set_scores scores i cur l) x = cands cur x.
Proof.
  induction l as [|r l IH]; intros i cur H; simpl; [reflexivity|].
  rewrite IH; [now apply set_cands_nohold|]. rewrite set_holds. exact H.
Qed.

Lemma set_scores_out (scores : list float) (l : list nat) (x : nat) :
  forall i cur, ~ In x l -> cands (set_scores scores i cur l) x = cands cur x.
Proof.
  induction l as [|r l IH]; intros i cur H; simpl; [reflexivity|].
  rewrite IH by (intros H'; apply H; now right).
  apply set_cands_other. intros ->. apply H. now left.
Qed.

(** Writes to candidates other than [x] that share no payload dict with
    it in [st] leave the score read on [x] as it was. *)
Lemma set_scores_frame (float_of_str : string -> option float) (scores : list float)
    (st : store) (x : nat) (l : list nat) :
  store_ok st ->
  (forall r', In r' l -> r' <> x /\
     forall p, payload_ref (cands st x) = Some p -> payload_ref (cands st r') <> Some p) ->
  forall i cur, allocated_from st cur ->
  get_score_from_doc float_of_str (set_scores scores i cur l) x =
  get_score_from_doc float_of_str cur x.
Proof.
  intros Hok. induction l as [|r' l IH]; intros Hl i cur Hal; simpl; [reflexivity|].
  rewrite IH; [| intros r'' H; apply Hl; now right | now apply allocated_step].
  destruct (Hl r' (or_introl eq_refl)) as [Hne Hsh].
  apply get_frame; [exact (store_ok_from st cur Hok Hal)|congruence|].
  intros p Hpx Hpr. destruct Hal as [_ Hx].
  destruct (Hx x) as [Ex|[q [_ [Ex Hu]]]].
  - destruct (Hx r') as [Er|[q [_ [Er Hu]]]].
    + rewrite Ex in Hpx. rewrite Er in Hpr. exact (Hsh p Hpx Hpr).
    + rewrite Er in Hpr. injection Hpr as <-. apply Hne. symmetry. exact (Hu x Hpx).
  - rewrite Ex in Hpx. injection Hpx as <-. apply Hne. exact (Hu r' Hpr).
Qed.

(** [_set_score_on_doc] stores a score that [_get_score_from_doc] reads
    back, unless the candidate can hold none (a dict whose payload is not
    a dict; an object with no payload dict on which [setattr] raises, such
    as a [str] or a [tuple]), where nothing changes; and the score read on
    any other candidate that shares no payload dict with it is unchanged. *)
Theorem score_set_then_get (float_of_str : string -> option float) (st : store)
    (r : nat) (s : float) :
  (holds_score (cands st r) = true ->
     get_score_from_doc float_of_str (set_score_on_doc st r s) r = s) /\
  (holds_score (cands st r) = false -> set_score_on_doc st r s = st) /\
  (store_ok st -> forall x, x <> r ->
     (forall p, payload_ref (cands st x) = Some p -> payload_ref (cands st r) <> Some p) ->
     get_score_from_doc float_of_str (set_score_on_doc st r s) x =
     get_score_from_doc float_of_str st x).
Proof.
  split; [apply set_get_at|split].
  - intros H. unfold set_score_on_doc.
    destruct (cands st r) as [[|p|]|[|p|] a [|]]; simpl in H; try discriminate; reflexivity.
  - intros Hok x Hne Hsh. exact (get_frame float_of_str st r x s Hok Hne Hsh).
Qed.

(** [rerank] returns its candidates reordered so that no candidate has a
    strictly higher score than the one before it, and touches no other
    candidate; a candidate that can hold no score keeps its state and its
    score; and the candidate at position [i] that can hold one reads
    [scores[i]] ([0.0] past the end), provided no later position lists it
    again or a candidate sharing its payload dict. *)
Theorem rerank_spec (float_of_str : string -> option float) (scores : list float)
    (st : store) (docs : list nat) :
  store_ok st ->
  let '(st', out) := rerank float_of_str scores st docs in
  Permutation out docs /\
  Sorted (fun y x => PrimFloat.ltb (get_score_from_doc float_of_str st' y)
                                   (get_score_from_doc float_of_str st' x) = false) out /\
  (forall r, ~ In r docs -> cands st' r = cands st r) /\
  (forall r, holds_score (cands st r) = false ->
     cands st' r = cands st r /\
     get_score_from_doc float_of_str st' r = get_score_from_doc float_of_str st r) /\
  (forall i r, nth_error docs i = Some r -> holds_score (cands st r) = true ->
     (forall j r', i < j -> nth_error docs j = Some r' ->
        r' <> r /\
        forall p, payload_ref (cands st r) = Some p -> payload_ref (cands st r') <> Some p) ->
     get_score_from_doc float_of_str st' r = nth i scores 0%float).
Proof.
  intros Hok. unfold rerank. cbv zeta.
  set (st' := set_scores scores 0 st docs).
  split; [apply SortFacts.sort_perm|split; [|split; [|split]]].
  - assert (Htot : forall x y, score_before float_of_str st' x y = false ->
                               score_before float_of_str st' y x = true).
    { unfold score_before. intros x y H. apply negb_false_iff in H.
      apply negb_true_iff. now apply FloatOrder.ltb_asym. }
    apply (SortFacts.sorted_impl (Props.stays (score_before float_of_str st')));
      [|now apply SortFacts.sort_sorted].
    intros a b H. unfold Props.stays, score_before in H. now apply negb_true_iff in H.
  - intros r Hr. exact (set_scores_out scores docs r 0 st Hr).
  - intros r Hr. assert (Hc : cands st' r = cands st r)
      by exact (set_scores_nohold scores docs r 0 st Hr).
    split; [exact Hc|]. unfold get_score_from_doc. rewrite Hc.
    destruct (cands st r) as [[|p|]|[|p|] a [|]]; simpl in Hr; try discriminate; reflexivity.
  - intros i r Hi Hh Hlater.
    destruct (nth_error_split docs i Hi) as [pre [post [Hd Hlen]]].
    unfold st'. rewrite Hd, set_scores_app. simpl.
    set (cur := set_scores scores 0 st pre).
    assert (Hal : allocated_from st cur)
      by exact (set_scores_alloc scores st pre Hok 0 st (allocated_refl st)).
    rewrite (set_scores_frame float_of_str scores st r post Hok).
    + rewrite Hlen. apply set_get_at. unfold cur. rewrite set_scores_holds. exact Hh.
    + intros r' Hr'. apply In_nth_error in Hr' as [k Hk].
      apply (Hlater (S (i + k))); [lia|].
      rewrite Hd, nth_error_app2 by lia. rewrite Hlen.
      replace (S (i + k) - i) with (S k) by lia. exact Hk.
    + apply allocated_step; assumption.
Qed.

(** Witness: candidates [0] and [1] share one payload dict, candidate [2]
    is a [str]; candidate [1], listed last of the two, reads [scores[1]]. *)
Lemma rerank_spec_witness :
  store_ok shared_payload_store /\
  let '(st', out) := rerank (fun _ => None) [1; 2; 3]%float shared_payload_store [0; 1; 2] in
  Permutation out [0; 1; 2] /\ get_score_from_doc (fun _ => None) st' 1 = 2%float.
Proof.
  assert (Hok : store_ok shared_payload_store).
  { intros r p H. destruct r as [|[|[|r]]]; simpl in H;
      try discriminate; injection H as <-; simpl; lia. }
  split; [exact Hok|].
  pose proof (rerank_spec (fun _ => None) [1; 2; 3]%float shared_payload_store [0; 1; 2] Hok)
    as G.
  destruct (rerank _ _ _ _) as [st' out].
  destruct G as [Hp [_ [_ [_ Hpos]]]]. split; [exact Hp|].
  apply (Hpos 1 1); [reflexivity|reflexivity|].
  intros j r' Hj Hr'. destruct j as [|[|[|j]]]; [lia|lia| |destruct j; discriminate].
  simpl in Hr'. injection Hr' as <-. split; [lia|]. intros p _. simpl. discriminate.
Defined.

(** Two candidates sharing one payload dict both read the score written
    last, and the stable sort keeps them in their input order. *)
Lemma rerank_shared_payload :
  let '(st', out) := rerank (fun _ => None) [1; 2]%float shared_payload_store [0; 1] in
  get_score_from_doc (fun _ => None) st' 0 = 2%float /\
  get_score_from_doc (fun _ => None) st' 1 = 2%float /\ out = [0; 1].
Proof. vm_compute. repeat split. Qed.

(** A candidate listed twice is one object written twice: the later
    position's score wins, and [rerank] returns the object twice. *)
Lemma rerank_aliased_candidate :
  let '(st', out) := rerank (fun _ => None) [1; 2]%float shared_payload_store [3; 3] in
  get_score_from_doc (fun _ => None) st' 3 = 2%float /\ out = [3; 3].
Proof. vm_compute. split; reflexivity. Qed.

(** A [str] candidate can hold no score: it reads [0.0] after [rerank]. *)
Lemma rerank_str_candidate :
  let '(st', out) := rerank (fun _ => None) [5]%float shared_payload_store [2] in
  get_score_from_doc (fun _ => None) st' 2 = 0%float /\ out = [2].
Proof. vm_compute. split; reflexivity. Qed.

End RerankerProofs.
